(** * laiybot: the event-reaction engine of [bot.js]

    A shallow embedding of the three event handlers of [src/bot.js]
    ([messageCreate], [guildMemberAdd], [interactionCreate]) together with
    the SQLite prepared statements they run, and the properties of the
    engine proved (or refuted) on that embedding.

    Conventions.
    - JavaScript numbers that hold integers (XP, levels, millisecond
      timestamps) are [Z]; all values involved stay far below 2^53.
    - A nullable TEXT column is [option string]; SQL NULL, JS [null] and
      [undefined] are all [None].
    - The two tables are finite maps keyed by their primary keys.
    - An asynchronous handler is a state transformer over a [World] that
      holds the database, the roles members hold on the platform, the
      trace of statements run and gateway calls issued, and the list of
      promise rejections nobody handled. *)

From Stdlib Require Import ZArith Lia Ascii String.
From stdpp Require Import base option list gmap sets strings.
From Equations Require Import Equations.

#[local] Set Warnings "-clear-no-such-hyp".

Local Open Scope string_scope.
Local Open Scope list_scope.
Local Open Scope Z_scope.

(** ** JavaScript operators on nullable values *)

Module Js.

(** Truthiness of a nullable string: [null], [undefined] and the empty
    string are falsy. *)
Definition truthy (v : option string) : bool :=
  match v with
  | Some s => negb (String.eqb s "")
  | None => false
  end.

(** [v || null] on a nullable string. *)
Definition or_null (v : option string) : option string :=
  if truthy v then v else None.

(** [a || b] on nullable strings. *)
Definition or_else (a b : option string) : option string :=
  if truthy a then a else b.

(** [v || d] where [d] is a string literal. *)
Definition or_default (v : option string) (d : string) : string :=
  match v with
  | Some s => if String.eqb s "" then d else s
  | None => d
  end.

(** [n || 0] on a number. *)
Definition or_zero (n : Z) : Z := if n =? 0 then 0 else n.

(** [v ?? d] on a nullable number. *)
Definition nullish (v : option Z) (d : Z) : Z :=
  match v with
  | Some n => n
  | None => d
  end.

End Js.

(** ** Level math *)

(** [function xpForNext(level)]: the classic quadratic-ish curve. *)
Definition xpForNext (level : Z) : Z := 5 * level * level + 50 * level + 100.

(** Termination measure of the level-up loop.  For [level >= -2] the
    threshold is at least 20 and [newXP] strictly decreases; below that the
    threshold may be as low as -25, which the second summand pays for. *)
Definition loop_measure (newXP level : Z) : nat :=
  Z.to_nat (newXP + 26 + 27 * Z.max 0 (-2 - level)).

Lemma xpForNext_lower (level : Z) : -25 <= xpForNext level.
Proof.
  unfold xpForNext. pose proof (Z.square_nonneg (level + 5)). lia.
Qed.

Lemma xpForNext_pos (level : Z) : -2 <= level -> 20 <= xpForNext level.
Proof. unfold xpForNext. nia. Qed.

Lemma loop_measure_decreases (newXP level : Z) :
  xpForNext level <= newXP ->
  (loop_measure (newXP - xpForNext level) (level + 1) < loop_measure newXP level)%nat.
Proof.
  intros Hge. unfold loop_measure.
  pose proof (xpForNext_lower level) as Hlow.
  destruct (Z_le_gt_dec (-2) level) as [Hl | Hl].
  - pose proof (xpForNext_pos level Hl). lia.
  - lia.
Qed.

(** The loop
    [while (newXP >= next) { newXP -= next; level += 1;
                             next = xpForNext(level); leveledUp = true; }]
    where [next] is [xpForNext(level)] at every test.  The result is the
    triple [(newXP, level, leveledUp)] at loop exit. *)
Equations? levelLoop (newXP level : Z) (leveledUp : bool) : Z * Z * bool
  by wf (loop_measure newXP level) lt :=
  levelLoop newXP level leveledUp with Z_le_gt_dec (xpForNext level) newXP := {
    | left _ => levelLoop (newXP - xpForNext level) (level + 1) true
    | right _ => (newXP, level, leveledUp) }.
Proof. apply loop_measure_decreases. assumption. Qed.

Example levelLoop_100 : levelLoop 100 0 false = (0, 1, true).
Proof. reflexivity. Qed.

(** ** The SQLite store *)

(** A row of [guild_config]; the key [guild_id] is the key of the map. *)
Record CfgRow := {
  welcome_channel_id : option string;
  welcome_message : option string;
  autorole_id : option string;
  leveling_enabled : Z;            (* INTEGER NOT NULL DEFAULT 1 *)
  log_channel_id : option string
}.

(** A row of [users]; the key [(guild_id, user_id)] is the key of the map. *)
Record UserRow := {
  xp : Z;
  level : Z;
  last_xp_ts : Z
}.

Record Db := {
  guild_config : gmap string CfgRow;
  users : gmap (string * string) UserRow
}.

Module Sql.

(** [SELECT * FROM guild_config WHERE guild_id = ?] *)
Definition getCfg (guild_id : string) (d : Db) : option CfgRow :=
  guild_config d !! guild_id.

(** [INSERT INTO guild_config ... ON CONFLICT(guild_id) DO UPDATE SET]
    every other column to the excluded value: the row is replaced. *)
Definition upsertCfg (guild_id : string) (row : CfgRow) (d : Db) : Db :=
  {| guild_config := <[guild_id := row]> (guild_config d);
     users := users d |}.

(** [SELECT * FROM users WHERE guild_id = ? AND user_id = ?] *)
Definition getUser (guild_id user_id : string) (d : Db) : option UserRow :=
  users d !! (guild_id, user_id).

(** [INSERT INTO users ... ON CONFLICT(guild_id, user_id) DO UPDATE SET
    xp=excluded.xp, level=excluded.level]: an existing row keeps its
    [last_xp_ts]. *)
Definition upsertUser (guild_id user_id : string) (row : UserRow) (d : Db) : Db :=
  let stored :=
    match users d !! (guild_id, user_id) with
    | Some old => {| xp := xp row; level := level row; last_xp_ts := last_xp_ts old |}
    | None => row
    end in
  {| guild_config := guild_config d;
     users := <[(guild_id, user_id) := stored]> (users d) |}.

(** [UPDATE users SET last_xp_ts = ? WHERE guild_id = ? AND user_id = ?] *)
Definition setLastXP (ts : Z) (guild_id user_id : string) (d : Db) : Db :=
  {| guild_config := guild_config d;
     users := alter (fun r => {| xp := xp r; level := level r; last_xp_ts := ts |})
                    (guild_id, user_id) (users d) |}.

End Sql.

(** The statements a handler runs, as they appear in the trace. *)
Inductive Stmt :=
| GetCfg (guild_id : string)
| UpsertCfg (guild_id : string) (row : CfgRow)
| GetUser (guild_id user_id : string)
| UpsertUser (guild_id user_id : string) (row : UserRow)
| SetLastXP (ts : Z) (guild_id user_id : string).

Definition is_write (s : Stmt) : bool :=
  match s with
  | GetCfg _ | GetUser _ _ => false
  | UpsertCfg _ _ | UpsertUser _ _ _ | SetLastXP _ _ _ => true
  end.

(** ** The gateway *)

(** What a sent message says.  The template literals of the source are
    kept symbolic: each constructor carries the values interpolated. *)
Inductive Content :=
| InviteWarning (member_id : string)
| InviteDeleted (user_tag channel_id : string)
| LeveledUpTo (author_id : string) (level : Z)
| WelcomeText (template member_id guild_name : string)
| MemberJoined (user_tag : string)
| RolesUpdated
| SomethingWentWrong
| WelcomeSet (channel_id message : string)
| AutoroleSet (role_id : string)
| LevelingToggled (enabled : bool)
| LogChannelSet (channel_id : string).

(** Calls that leave the process; each returns a promise that may reject. *)
Inductive Action :=
| MessageDelete (channel_id message_id : string)
| ChannelSend (channel_id : string) (content : Content)
| MembersFetch (guild_id user_id : string)
| RolesAdd (guild_id user_id : string) (roles : list string)
| RolesRemove (guild_id user_id : string) (roles : gset string)
| InteractionReply (content : Content).

Inductive Event :=
| Ran (s : Stmt)
| Called (a : Action).

Record World := {
  db : Db;
  member_roles : gmap (string * string) (gset string);
  trace : list Event;             (* oldest first *)
  unhandled : list Action         (* rejections no handler caught *)
}.

Definition rolesOf (guild_id user_id : string) (w : World) : gset string :=
  default ∅ (member_roles w !! (guild_id, user_id)).

Definition log_event (e : Event) (w : World) : World :=
  {| db := db w; member_roles := member_roles w;
     trace := trace w ++ [e]; unhandled := unhandled w |}.

Definition with_db (d : Db) (w : World) : World :=
  {| db := d; member_roles := member_roles w;
     trace := trace w; unhandled := unhandled w |}.

Definition with_roles (guild_id user_id : string) (rs : gset string) (w : World) : World :=
  {| db := db w; member_roles := <[(guild_id, user_id) := rs]> (member_roles w);
     trace := trace w; unhandled := unhandled w |}.

Definition note_unhandled (a : Action) (w : World) : World :=
  {| db := db w; member_roles := member_roles w;
     trace := trace w; unhandled := unhandled w ++ [a] |}.

(** What a fulfilled call does to the platform: role removal and addition
    act on the member's role set; nothing else is tracked. *)
Definition effect (a : Action) (w : World) : World :=
  match a with
  | RolesAdd g u roles => with_roles g u (rolesOf g u w ∪ list_to_set roles) w
  | RolesRemove g u roles => with_roles g u (rolesOf g u w ∖ roles) w
  | _ => w
  end.

(** ** Asynchronous code *)

Inductive Settled (A : Type) :=
| Fulfilled (a : A)
| Rejected (by_call : Action).
Arguments Fulfilled {A} a.
Arguments Rejected {A} by_call.

Definition Async (A : Type) : Type := World -> Settled A * World.

Definition ret {A} (a : A) : Async A := fun w => (Fulfilled a, w).

Definition bind {A B} (m : Async A) (k : A -> Async B) : Async B :=
  fun w =>
    match m w with
    | (Fulfilled a, w') => k a w'
    | (Rejected c, w') => (Rejected c, w')
    end.

Declare Scope async_scope.
Delimit Scope async_scope with async.
Notation "x <- m ; k" := (bind m (fun x => k))
  (at level 20, m at level 100, k at level 200, only parsing) : async_scope.
Notation "m ;;; k" := (bind m (fun _ => k))
  (at level 100, k at level 200, right associativity, only parsing) : async_scope.
Local Open Scope async_scope.

(** [getCfg.get(..)], [getUser.get(..)] and [stmt.run(..)]: synchronous. *)
Definition run_getCfg (guild_id : string) : Async (option CfgRow) :=
  fun w => (Fulfilled (Sql.getCfg guild_id (db w)), log_event (Ran (GetCfg guild_id)) w).

Definition run_getUser (guild_id user_id : string) : Async (option UserRow) :=
  fun w => (Fulfilled (Sql.getUser guild_id user_id (db w)),
            log_event (Ran (GetUser guild_id user_id)) w).

Definition run_upsertCfg (guild_id : string) (row : CfgRow) : Async unit :=
  fun w => (Fulfilled tt,
            log_event (Ran (UpsertCfg guild_id row)) (with_db (Sql.upsertCfg guild_id row (db w)) w)).

Definition run_upsertUser (guild_id user_id : string) (row : UserRow) : Async unit :=
  fun w => (Fulfilled tt,
            log_event (Ran (UpsertUser guild_id user_id row))
                      (with_db (Sql.upsertUser guild_id user_id row (db w)) w)).

Definition run_setLastXP (ts : Z) (guild_id user_id : string) : Async unit :=
  fun w => (Fulfilled tt,
            log_event (Ran (SetLastXP ts guild_id user_id))
                      (with_db (Sql.setLastXP ts guild_id user_id (db w)) w)).

Section Gateway.

(** Which calls the platform rejects.  The engine does not control it. *)
Context (rejects : Action -> bool).

(** [await call]: the call is issued; a rejection is thrown at the await. *)
Definition await (a : Action) : Async unit :=
  fun w =>
    let w' := log_event (Called a) w in
    if rejects a then (Rejected a, w') else (Fulfilled tt, effect a w').

(** [m.catch(() => {})]: a rejection is swallowed where it occurs. *)
Definition catch_ignore (m : Async unit) : Async unit :=
  fun w =>
    match m w with
    | (Fulfilled _, w') => (Fulfilled tt, w')
    | (Rejected _, w') => (Fulfilled tt, w')
    end.

(** A promise that is neither awaited nor given a [catch]: the code after
    it runs on; a rejection has no handler. *)
Definition floating (m : Async unit) : Async unit :=
  fun w =>
    match m w with
    | (Fulfilled _, w') => (Fulfilled tt, w')
    | (Rejected c, w') => (Fulfilled tt, note_unhandled c w')
    end.

(** [try { body } catch (err) { handler }] *)
Definition try_catch (body handler : Async unit) : Async unit :=
  fun w =>
    match body w with
    | (Fulfilled _, w') => (Fulfilled tt, w')
    | (Rejected _, w') => handler w'
    end.

End Gateway.

(** ** The invite pattern

    [/(discord\.gg\/|discord\.com\/invite\/)/i.test(message.content)].
    Message text is a string of code units.  Under the [i] flag two code
    units match when their canonical forms agree; for the ASCII pattern at
    hand that is ASCII upper-casing, since canonicalisation never takes a
    code unit outside ASCII to one inside. *)

Module InviteRe.

Definition canonicalize (c : ascii) : ascii :=
  let n := nat_of_ascii c in
  if ((97 <=? n) && (n <=? 122))%nat then ascii_of_nat (n - 32) else c.

(** Does [pat] match at the start of [s]? *)
Fixpoint matches_here (pat s : string) : bool :=
  match pat, s with
  | EmptyString, _ => true
  | String _ _, EmptyString => false
  | String p pat', String c s' =>
      Ascii.eqb (canonicalize p) (canonicalize c) && matches_here pat' s'
  end.

(** Does [pat] match at some position of [s]? *)
Fixpoint search (pat s : string) : bool :=
  matches_here pat s ||
  match s with
  | EmptyString => false
  | String _ s' => search pat s'
  end.

Definition test (content : string) : bool :=
  search "discord.gg/" content || search "discord.com/invite/" content.

End InviteRe.

(** ** Events delivered by discord.js *)

Record Guild := {
  guild_id : string;
  guild_name : string;
  systemChannelId : option string;
  roles_cache : gmap string bool;     (* role id |-> role.editable *)
  channels_cache : gmap string bool   (* channel id |-> channel.isTextBased() *)
}.

Record User := {
  user_id : string;
  bot : bool;
  tag : string
}.

Record Member := {
  user : User;
  joinedTimestamp : Z;
  canManageMessages : bool   (* permissions.has(PermissionFlagsBits.ManageMessages) *)
}.

Record Message := {
  message_id : string;
  guild : option Guild;      (* null for a direct message *)
  author : User;
  member : Member;
  content : string;
  channel : string
}.

Record SelectMenu := {
  customId : string;
  values : list string;             (* the role ids the member picked *)
  component_options : list string;  (* the values of the menu's options *)
  menu_user : User;
  menu_guild : Guild
}.

(** A configuration command with the options it carries. *)
Inductive ConfigCommand :=
| SetWelcome (channel_id message : string)
| SetAutorole (role_id : string)
| ToggleLeveling (enabled : bool)
| SetLog (channel_id : string).

(** What a handler observes of the clock and of the random source. *)
Record Env := {
  now_automod : Z;    (* [Date.now()] of the tenure test *)
  now_leveling : Z;   (* [Date.now()] of the cooldown test *)
  draw : Z            (* [Math.floor(Math.random() * 11)] *)
}.

(** [id ? guild.channels.cache.get(id) : null], with the channel's id kept
    next to its [isTextBased()]. *)
Definition find_channel (g : Guild) (id : option string) : option (string * bool) :=
  if Js.truthy id
  then id ≫= fun c => (fun t => (c, t)) <$> channels_cache g !! c
  else None.

(** [if (id) { const role = guild.roles.cache.get(id); ... }], with the
    role's id kept next to its [editable]. *)
Definition find_role (g : Guild) (id : option string) : option (string * bool) :=
  if Js.truthy id
  then id ≫= fun r => (fun e => (r, e)) <$> roles_cache g !! r
  else None.

Definition sevenDays : Z := 7 * 24 * 60 * 60 * 1000.
Definition cooldownMs : Z := 60 * 1000.

Definition zero_record : UserRow := {| xp := 0; level := 0; last_xp_ts := 0 |}.

(** [!cfg || cfg.leveling_enabled !== 1] *)
Definition levelingOff (cfg : option CfgRow) : bool :=
  match cfg with
  | None => true
  | Some c => negb (leveling_enabled c =? 1)
  end.

(** [15 + Math.floor(Math.random() * 11)] *)
Definition gainOf (env : Env) : Z := 15 + draw env.

Section Handlers.

Context (rejects : Action -> bool).

Local Abbreviation await := (await rejects).

(** [const log = ...; if (log?.isTextBased()) log.send(text);] *)
Definition send_log (g : Guild) (cfg : option CfgRow) (text : Content) : Async unit :=
  match find_channel g (cfg ≫= log_channel_id) with
  | Some (id, true) => floating (await (ChannelSend id text))
  | _ => ret tt
  end.

(** *** messageCreate *)

(** The condition under which the handler deletes the message:
    [isInvite], then [joinedAgoMs < sevenDays && !member.permissions.has(..)]. *)
Definition blocksInvite (env : Env) (message : Message) : bool :=
  let isInvite := InviteRe.test (content message) in
  let joinedAgoMs := now_automod env - joinedTimestamp (member message) in
  isInvite && ((joinedAgoMs <? sevenDays) && negb (canManageMessages (member message))).

(** The block path: delete, warn, tell the log channel, return. *)
Definition deleteInvite (g : Guild) (message : Message) : Async unit :=
  let who := member message in
  catch_ignore (await (MessageDelete (channel message) (message_id message))) ;;;
  catch_ignore (await (ChannelSend (channel message) (InviteWarning (user_id (user who))))) ;;;
  cfg <- run_getCfg (guild_id g) ;
  send_log g cfg (InviteDeleted (tag (user who)) (channel message)).

(** The leveling step, from [const cfg = getCfg.get(..)] to the end. *)
Definition leveling (env : Env) (g : Guild) (message : Message) : Async unit :=
  let gid := guild_id g in
  let uid := user_id (author message) in
  cfg <- run_getCfg gid ;
  if levelingOff cfg then ret tt else
  let now := now_leveling env in
  found <- run_getUser gid uid ;
  let rec := default zero_record found in
  if now - last_xp_ts rec <? cooldownMs then ret tt else
  let gain := gainOf env in
  let '(newXP, lvl, leveledUp) :=
    levelLoop (Js.or_zero (xp rec) + gain) (Js.or_zero (level rec)) false in
  run_upsertUser gid uid {| xp := newXP; level := lvl; last_xp_ts := last_xp_ts rec |} ;;;
  run_setLastXP now gid uid ;;;
  if leveledUp
  then catch_ignore (await (ChannelSend (channel message) (LeveledUpTo uid lvl)))
  else ret tt.

Definition messageCreate (env : Env) (message : Message) : Async unit :=
  match guild message with
  | None => ret tt
  | Some g =>
      if bot (author message) then ret tt
      else if blocksInvite env message then deleteInvite g message
      else leveling env g message
  end.

(** *** guildMemberAdd *)

Definition guildMemberAdd (g : Guild) (who : Member) : Async unit :=
  cfg <- run_getCfg (guild_id g) ;
  (* Autorole *)
  match find_role g (cfg ≫= autorole_id) with
  | Some (r, true) =>
      catch_ignore (await (RolesAdd (guild_id g) (user_id (user who)) [r]))
  | _ => ret tt
  end ;;;
  (* Welcome message *)
  let channelId := Js.or_else (cfg ≫= welcome_channel_id) (systemChannelId g) in
  let msgT := Js.or_default (cfg ≫= welcome_message) "Welcome {user} to {server}!" in
  let text := WelcomeText msgT (user_id (user who)) (guild_name g) in
  match find_channel g channelId with
  | Some (id, true) => catch_ignore (await (ChannelSend id text))
  | _ => ret tt
  end ;;;
  send_log g cfg (MemberJoined (tag (user who))).

(** *** interactionCreate, string select menu *)

(** [await interaction.guild.members.fetch(id)], giving the roles held. *)
Definition fetchMember (guild_id user_id : string) : Async (gset string) :=
  fun w =>
    let call := MembersFetch guild_id user_id in
    let w' := log_event (Called call) w in
    if rejects call then (Rejected call, w')
    else (Fulfilled (rolesOf guild_id user_id w'), w').

(** The body of the [isStringSelectMenu()] branch. *)
Definition roleMenu (i : SelectMenu) : Async unit :=
  if negb (String.prefix "role_menu:" (customId i)) then ret tt else
  let g := menu_guild i in
  let uid := user_id (menu_user i) in
  let selected := values i in
  (* remove all roles from the menu list, then add selected *)
  let roleIds := component_options i in
  held <- fetchMember (guild_id g) uid ;
  (* filter manageable roles *)
  let manageable := filter (fun rid => roles_cache g !! rid = Some true) roleIds in
  let toRemove := filter (fun r => r ∈ manageable) held in
  await (RolesRemove (guild_id g) uid toRemove) ;;;
  await (RolesAdd (guild_id g) uid selected) ;;;
  await (InteractionReply RolesUpdated).

(** The handler around it: [try { ... } catch (err) { if
    (interaction.isRepliable()) { try { await interaction.reply(..) }
    catch {} } }]; a select-menu interaction is repliable. *)
Definition onSelectMenu (i : SelectMenu) : Async unit :=
  try_catch (roleMenu i)
            (catch_ignore (await (InteractionReply SomethingWentWrong))).

(** *** Configuration commands *)

Definition handleSetWelcome (guildId channel_id message : string) : Async unit :=
  c1 <- run_getCfg guildId ;
  c2 <- run_getCfg guildId ;
  c3 <- run_getCfg guildId ;
  run_upsertCfg guildId
    {| welcome_channel_id := Some channel_id;
       welcome_message := Some message;
       autorole_id := Js.or_null (c1 ≫= autorole_id);
       leveling_enabled := Js.nullish (leveling_enabled <$> c2) 1;
       log_channel_id := Js.or_null (c3 ≫= log_channel_id) |} ;;;
  await (InteractionReply (WelcomeSet channel_id message)).

Definition handleSetAutorole (guildId role_id : string) : Async unit :=
  c1 <- run_getCfg guildId ;
  c2 <- run_getCfg guildId ;
  c3 <- run_getCfg guildId ;
  c4 <- run_getCfg guildId ;
  run_upsertCfg guildId
    {| autorole_id := Some role_id;
       welcome_channel_id := Js.or_null (c1 ≫= welcome_channel_id);
       welcome_message := Js.or_null (c2 ≫= welcome_message);
       leveling_enabled := Js.nullish (leveling_enabled <$> c3) 1;
       log_channel_id := Js.or_null (c4 ≫= log_channel_id) |} ;;;
  await (InteractionReply (AutoroleSet role_id)).

Definition handleToggleLeveling (guildId : string) (enabled : bool) : Async unit :=
  c1 <- run_getCfg guildId ;
  c2 <- run_getCfg guildId ;
  c3 <- run_getCfg guildId ;
  c4 <- run_getCfg guildId ;
  run_upsertCfg guildId
    {| leveling_enabled := if enabled then 1 else 0;
       welcome_channel_id := Js.or_null (c1 ≫= welcome_channel_id);
       welcome_message := Js.or_null (c2 ≫= welcome_message);
       autorole_id := Js.or_null (c3 ≫= autorole_id);
       log_channel_id := Js.or_null (c4 ≫= log_channel_id) |} ;;;
  await (InteractionReply (LevelingToggled enabled)).

Definition handleSetLog (guildId channel_id : string) : Async unit :=
  c1 <- run_getCfg guildId ;
  c2 <- run_getCfg guildId ;
  c3 <- run_getCfg guildId ;
  c4 <- run_getCfg guildId ;
  run_upsertCfg guildId
    {| log_channel_id := Some channel_id;
       welcome_channel_id := Js.or_null (c1 ≫= welcome_channel_id);
       welcome_message := Js.or_null (c2 ≫= welcome_message);
       autorole_id := Js.or_null (c3 ≫= autorole_id);
       leveling_enabled := Js.nullish (leveling_enabled <$> c4) 1 |} ;;;
  await (InteractionReply (LogChannelSet channel_id)).

(** The four configuration commands as [interactionCreate] dispatches
    them on [commandName]. *)
Definition handleCommand (guildId : string) (cmd : ConfigCommand) : Async unit :=
  match cmd with
  | SetWelcome channel_id message => handleSetWelcome guildId channel_id message
  | SetAutorole role_id => handleSetAutorole guildId role_id
  | ToggleLeveling enabled => handleToggleLeveling guildId enabled
  | SetLog channel_id => handleSetLog guildId channel_id
  end.

End Handlers.

(** ** Notions used in the statements *)

(** The stored record of member [uid] of community [gid], or the zero
    record the handler assumes when there is none. *)
Definition recordOf (gid uid : string) (w : World) : UserRow :=
  default zero_record (Sql.getUser gid uid (db w)).

(** The record a grant leaves for a member whose record was [rec]. *)
Definition granted (env : Env) (rec : UserRow) : UserRow :=
  let '(newXP, lvl, _) :=
    levelLoop (Js.or_zero (xp rec) + gainOf env) (Js.or_zero (level rec)) false in
  {| xp := newXP; level := lvl; last_xp_ts := now_leveling env |}.

(** Whether that grant crosses a level. *)
Definition levelsUp (env : Env) (rec : UserRow) : bool :=
  snd (levelLoop (Js.or_zero (xp rec) + gainOf env) (Js.or_zero (level rec)) false).

(** The handler run on each event in turn. *)
Definition deliver (rejects : Action -> bool) (events : list (Env * Message))
    (w : World) : World :=
  fold_left (fun w ev => snd (messageCreate rejects (fst ev) (snd ev) w)) events w.

(** An event of member [uid] in community [gid] that reaches the grant,
    on a draw within range. *)
Definition reaches_leveling (gid uid : string) (ev : Env * Message) : Prop :=
  (exists g, guild (snd ev) = Some g /\ guild_id g = gid) /\
  user_id (author (snd ev)) = uid /\
  bot (author (snd ev)) = false /\
  blocksInvite (fst ev) (snd ev) = false /\
  0 <= draw (fst ev) <= 10.

(** No cooldown collisions: each event comes at least [cooldownMs] after
    the previous grant. *)
Fixpoint spaced (last : Z) (events : list (Env * Message)) : Prop :=
  match events with
  | [] => True
  | ev :: rest =>
      cooldownMs <= now_leveling (fst ev) - last /\ spaced (now_leveling (fst ev)) rest
  end.

(** The events logged between world [w] and a later world [w']. *)
Definition issued (w w' : World) : list Event := drop (length (trace w)) (trace w').

(** The statements among them that write to the store. *)
Definition writes_in (t : list Event) : list Stmt :=
  flat_map (fun e => match e with
                     | Ran s => if is_write s then [s] else []
                     | Called _ => []
                     end) t.

Definition xp_invariant (r : UserRow) : Prop := 0 <= xp r < xpForNext (level r).

(** Computations that leave the store alone. *)
Definition keeps_db {A} (m : Async A) : Prop := forall w, db (snd (m w)) = db w.

(** The settings a configuration command addresses. *)
Inductive Setting := Welcome | Autorole | LevelingFlag | LogChannel.

Definition target (cmd : ConfigCommand) : Setting :=
  match cmd with
  | SetWelcome _ _ => Welcome
  | SetAutorole _ => Autorole
  | ToggleLeveling _ => LevelingFlag
  | SetLog _ => LogChannel
  end.

(** Row [c] holds the values command [cmd] supplied. *)
Definition holds_values_of (cmd : ConfigCommand) (c : CfgRow) : Prop :=
  match cmd with
  | SetWelcome channel_id message =>
      welcome_channel_id c = Some channel_id /\ welcome_message c = Some message
  | SetAutorole role_id => autorole_id c = Some role_id
  | ToggleLeveling enabled => leveling_enabled c = if enabled then 1 else 0
  | SetLog channel_id => log_channel_id c = Some channel_id
  end.

(** The identifiers and the text a command carries are not empty (ids are
    snowflakes, the welcome text is a required option). *)
Definition carries_values (cmd : ConfigCommand) : Prop :=
  match cmd with
  | SetWelcome channel_id message => channel_id <> "" /\ message <> ""
  | SetAutorole role_id => role_id <> ""
  | ToggleLeveling _ => True
  | SetLog channel_id => channel_id <> ""
  end.

(** The row a command writes over the row [old] it found. *)
Definition merged (cmd : ConfigCommand) (old : option CfgRow) : CfgRow :=
  match cmd with
  | SetWelcome channel_id message =>
      {| welcome_channel_id := Some channel_id;
         welcome_message := Some message;
         autorole_id := Js.or_null (old ≫= autorole_id);
         leveling_enabled := Js.nullish (leveling_enabled <$> old) 1;
         log_channel_id := Js.or_null (old ≫= log_channel_id) |}
  | SetAutorole role_id =>
      {| welcome_channel_id := Js.or_null (old ≫= welcome_channel_id);
         welcome_message := Js.or_null (old ≫= welcome_message);
         autorole_id := Some role_id;
         leveling_enabled := Js.nullish (leveling_enabled <$> old) 1;
         log_channel_id := Js.or_null (old ≫= log_channel_id) |}
  | ToggleLeveling enabled =>
      {| welcome_channel_id := Js.or_null (old ≫= welcome_channel_id);
         welcome_message := Js.or_null (old ≫= welcome_message);
         autorole_id := Js.or_null (old ≫= autorole_id);
         leveling_enabled := if enabled then 1 else 0;
         log_channel_id := Js.or_null (old ≫= log_channel_id) |}
  | SetLog channel_id =>
      {| welcome_channel_id := Js.or_null (old ≫= welcome_channel_id);
         welcome_message := Js.or_null (old ≫= welcome_message);
         autorole_id := Js.or_null (old ≫= autorole_id);
         leveling_enabled := Js.nullish (leveling_enabled <$> old) 1;
         log_channel_id := Some channel_id |}
  end.

(** ** Sample data *)

Module Sample.

Definition accept_all : Action -> bool := fun _ => false.

Definition town : Guild :=
  {| guild_id := "g"; guild_name := "Town"; systemChannelId := None;
     roles_cache := {[ "A" := true; "B" := true; "C" := true; "D" := false ]};
     channels_cache := {[ "general" := true; "modlog" := true ]} |}.

Definition alice : User := {| user_id := "u"; bot := false; tag := "alice#0001" |}.

Definition alice_joined (ts : Z) : Member :=
  {| user := alice; joinedTimestamp := ts; canManageMessages := false |}.

Definition says (text : string) (joined : Z) : Message :=
  {| message_id := "m"; guild := Some town; author := alice;
     member := alice_joined joined; content := text; channel := "general" |}.

Definition at_time (now r : Z) : Env :=
  {| now_automod := now; now_leveling := now; draw := r |}.

Definition leveling_on : CfgRow :=
  {| welcome_channel_id := None; welcome_message := None; autorole_id := None;
     leveling_enabled := 1; log_channel_id := None |}.

Definition with_modlog : CfgRow :=
  {| welcome_channel_id := Some "general"; welcome_message := None;
     autorole_id := Some "A"; leveling_enabled := 1; log_channel_id := Some "modlog" |}.

Definition blank : World :=
  {| db := {| guild_config := ∅; users := ∅ |};
     member_roles := ∅; trace := []; unhandled := [] |}.

Definition configured (c : CfgRow) : World :=
  {| db := {| guild_config := {[ "g" := c ]}; users := ∅ |};
     member_roles := ∅; trace := []; unhandled := [] |}.

(** Leveling is on and Alice is at level 0 with 90 XP. *)
Definition seasoned : World :=
  {| db := {| guild_config := {[ "g" := leveling_on ]};
              users := {[ ("g", "u") := {| xp := 90; level := 0; last_xp_ts := 0 |} ]} |};
     member_roles := ∅; trace := []; unhandled := [] |}.


(** Alice picks [picked] in a role menu that offers [offered]. *)
Definition picks (offered picked : list string) : SelectMenu :=
  {| customId := "role_menu:1700000000000"; values := picked;
     component_options := offered; menu_user := alice; menu_guild := town |}.

(** A world where Alice holds [roles] and the store is empty. *)
Definition holding (roles : gset string) : World :=
  {| db := {| guild_config := ∅; users := ∅ |};
     member_roles := {[ ("g", "u") := roles ]}; trace := []; unhandled := [] |}.

(** A platform that refuses to add a role the bot cannot edit. *)
Definition refuse_unmanageable : Action -> bool :=
  fun a => match a with
           | RolesAdd _ _ roles =>
               existsb (fun r => negb (bool_decide (roles_cache town !! r = Some true))) roles
           | _ => false
           end.

(** A platform on which every message sent to [channel_id] fails. *)
Definition channel_down (channel_id : string) : Action -> bool :=
  fun a => match a with
           | ChannelSend c _ => String.eqb c channel_id
           | _ => false
           end.

End Sample.

(** * Properties *)

(** ** The level curve and the loop *)

Lemma xpForNext_increasing (l : Z) : 0 <= l -> xpForNext l < xpForNext (l + 1).
Proof. unfold xpForNext. nia. Qed.

Lemma or_zero_id (n : Z) : Js.or_zero n = n.
Proof. unfold Js.or_zero. destruct (Z.eqb_spec n 0); congruence. Qed.

(** One turn of the [while]. *)
Lemma levelLoop_step (newXP lvl : Z) (up : bool) :
  levelLoop newXP lvl up =
    if xpForNext lvl <=? newXP
    then levelLoop (newXP - xpForNext lvl) (lvl + 1) true
    else (newXP, lvl, up).
Proof.
  rewrite levelLoop_equation_1.
  destruct (Z_le_gt_dec (xpForNext lvl) newXP) as [Hle | Hgt]; simpl;
    destruct (Z.leb_spec (xpForNext lvl) newXP); try lia; reflexivity.
Qed.

(** Induction along the turns of the loop. *)
Lemma levelLoop_rect (P : Z -> Z -> bool -> Z * Z * bool -> Prop) :
  (forall x l u, x < xpForNext l -> P x l u (x, l, u)) ->
  (forall x l u r, xpForNext l <= x ->
     P (x - xpForNext l) (l + 1) true r -> P x l u r) ->
  forall x l u, P x l u (levelLoop x l u).
Proof.
  intros Hexit Hturn x l.
  remember (loop_measure x l) as m eqn:Hm.
  revert x l Hm.
  induction m as [m IH] using (well_founded_induction Wf_nat.lt_wf).
  intros x l -> u. rewrite levelLoop_step.
  destruct (Z.leb_spec (xpForNext l) x) as [Hle | Hlt].
  - apply Hturn; [exact Hle |].
    eapply IH; [apply loop_measure_decreases; exact Hle | reflexivity].
  - apply Hexit. exact Hlt.
Qed.

(** At loop exit the remainder is below the threshold of the level
    reached, and it is non-negative whenever the loop was entered with a
    non-negative amount. *)
Lemma levelLoop_exit (newXP lvl : Z) (up : bool) :
  let '(x, l, _) := levelLoop newXP lvl up in
  x < xpForNext l /\ (0 <= newXP -> 0 <= x).
Proof.
  apply (levelLoop_rect
           (fun x0 _ _ r => let '(x, l, _) := r in
                            x < xpForNext l /\ (0 <= x0 -> 0 <= x))).
  - intros x l u Hlt. split; [exact Hlt | auto].
  - intros x l u [[rx rl] ru] Hle [Hlt Hnn]. split; [exact Hlt | intros; apply Hnn; lia].
Qed.

(** Levels never drop, and the flag tells whether one was gained. *)
Lemma levelLoop_flag (newXP lvl : Z) :
  let '(_, l, u) := levelLoop newXP lvl false in
  lvl <= l /\ (u = true <-> lvl < l).
Proof.
  enough (forall up, let '(_, l, u) := levelLoop newXP lvl up in
                     lvl <= l /\ (u = true <-> up = true \/ lvl < l)) as Hgen.
  { specialize (Hgen false). destruct (levelLoop newXP lvl false) as [[x l] u].
    destruct Hgen as [Hle Hu]. split; [exact Hle |]. rewrite Hu.
    split; [intros [? | ?]; [discriminate | assumption] | auto]. }
  intros up.
  apply (levelLoop_rect
           (fun _ l0 u0 r => let '(_, l, u) := r in
                             l0 <= l /\ (u = true <-> u0 = true \/ l0 < l))).
  - intros x l u _. split; [lia |]. split; [auto | intros [? | ?]; [assumption | lia]].
  - intros x l u [[rx rl] ru] _ [Hle Hu]. split; [lia |].
    rewrite Hu. split; intros _; [right; lia | left; reflexivity].
Qed.

(** ** The store *)

Lemma getUser_upsertUser_setLastXP (g u : string) (row : UserRow) (ts : Z) (d : Db) :
  Sql.getUser g u (Sql.setLastXP ts g u (Sql.upsertUser g u row d)) =
    Some {| xp := xp row; level := level row; last_xp_ts := ts |}.
Proof.
  unfold Sql.getUser, Sql.setLastXP, Sql.upsertUser. simpl.
  rewrite lookup_alter_eq, lookup_insert_eq.
  destruct (users d !! (g, u)); reflexivity.
Qed.

Lemma getUser_grant_other (g u : string) (row : UserRow) (ts : Z) (d : Db) (k : string * string) :
  k <> (g, u) ->
  users (Sql.setLastXP ts g u (Sql.upsertUser g u row d)) !! k = users d !! k.
Proof.
  intros Hne. unfold Sql.setLastXP, Sql.upsertUser. simpl.
  rewrite lookup_alter_ne, lookup_insert_ne by congruence. reflexivity.
Qed.

(** ** The message handler, path by path *)

Section MessagePaths.

Context (rejects : Action -> bool) (env : Env) (message : Message) (g : Guild).
Context (w : World).

Let gid := guild_id g.
Let uid := user_id (author message).
Let rec := recordOf gid uid w.
Let out := messageCreate rejects env message w.

Hypothesis Hguild : guild message = Some g.
Hypothesis Hhuman : bot (author message) = false.

Lemma messageCreate_blocked :
  blocksInvite env message = true ->
  out = deleteInvite rejects g message w.
Proof.
  intros Hb. unfold out, messageCreate. rewrite Hguild, Hhuman, Hb. reflexivity.
Qed.

Lemma messageCreate_allowed :
  blocksInvite env message = false ->
  out = leveling rejects env g message w.
Proof.
  intros Hb. unfold out, messageCreate. rewrite Hguild, Hhuman, Hb. reflexivity.
Qed.

Hypothesis Hallow : blocksInvite env message = false.

Lemma leveling_off :
  levelingOff (Sql.getCfg gid (db w)) = true ->
  out = (Fulfilled tt, log_event (Ran (GetCfg gid)) w).
Proof.
  intros Hoff. rewrite (messageCreate_allowed Hallow).
  unfold leveling, bind, run_getCfg. fold gid. simpl. rewrite Hoff. reflexivity.
Qed.

Hypothesis Hon : levelingOff (Sql.getCfg gid (db w)) = false.

Lemma leveling_cooldown :
  now_leveling env - last_xp_ts rec < cooldownMs ->
  out = (Fulfilled tt,
         log_event (Ran (GetUser gid uid)) (log_event (Ran (GetCfg gid)) w)).
Proof.
  intros Hcd. rewrite (messageCreate_allowed Hallow).
  unfold leveling, bind, run_getCfg, run_getUser. fold gid uid. simpl.
  rewrite Hon. simpl.
change (default zero_record (Sql.getUser gid uid (db w))) with rec.
  destruct (Z.ltb_spec (now_leveling env - last_xp_ts rec) cooldownMs); [reflexivity | lia].
Qed.

Lemma leveling_grant :
  cooldownMs <= now_leveling env - last_xp_ts rec ->
  let row := {| xp := xp (granted env rec); level := level (granted env rec);
                last_xp_ts := last_xp_ts rec |} in
  fst out = Fulfilled tt /\
  db (snd out) = Sql.setLastXP (now_leveling env) gid uid (Sql.upsertUser gid uid row (db w)) /\
  trace (snd out) =
    trace w ++ [Ran (GetCfg gid); Ran (GetUser gid uid);
                Ran (UpsertUser gid uid row);
                Ran (SetLastXP (now_leveling env) gid uid)]
            ++ (if levelsUp env rec
                then [Called (ChannelSend (channel message)
                                          (LeveledUpTo uid (level (granted env rec))))]
                else []) /\
  member_roles (snd out) = member_roles w /\
  unhandled (snd out) = unhandled w.
Proof.
  intros Hcd. rewrite (messageCreate_allowed Hallow).
  unfold leveling, bind, run_getCfg, run_getUser. fold gid uid. simpl.
  rewrite Hon. simpl.
change (default zero_record (Sql.getUser gid uid (db w))) with rec.
  destruct (Z.ltb_spec (now_leveling env - last_xp_ts rec) cooldownMs); [lia |].
  unfold granted, levelsUp.
  destruct (levelLoop _ _ _) as [[newXP lvl] up]. simpl.
  unfold run_upsertUser, run_setLastXP, catch_ignore, await. simpl.
  destruct up; simpl; [destruct (rejects _); simpl |];
    repeat split; rewrite <- ?app_assoc; reflexivity.
Qed.

End MessagePaths.

Lemma granted_eta (env : Env) (rec : UserRow) :
  {| xp := xp (granted env rec); level := level (granted env rec);
     last_xp_ts := now_leveling env |} = granted env rec.
Proof. unfold granted. destruct (levelLoop _ _ _) as [[x l] u]. reflexivity. Qed.

(** A message that passes every gate leaves [granted] in the store and
    touches nothing else. *)
Lemma message_grants (rejects : Action -> bool) (env : Env) (message : Message)
    (g : Guild) (w : World) :
  guild message = Some g ->
  bot (author message) = false ->
  blocksInvite env message = false ->
  levelingOff (Sql.getCfg (guild_id g) (db w)) = false ->
  let uid := user_id (author message) in
  let rec := default zero_record (Sql.getUser (guild_id g) uid (db w)) in
  cooldownMs <= now_leveling env - last_xp_ts rec ->
  let w' := snd (messageCreate rejects env message w) in
  Sql.getUser (guild_id g) uid (db w') = Some (granted env rec) /\
  guild_config (db w') = guild_config (db w) /\
  (forall k, k <> (guild_id g, uid) -> users (db w') !! k = users (db w) !! k).
Proof.
  intros Hg Hh Ha Hon uid rec Hcd w'.
  destruct (leveling_grant rejects env message g w Hg Hh Ha Hon Hcd)
    as (_ & Hdb & _). fold uid rec w' in Hdb.
  rewrite Hdb. split; [| split].
  - rewrite getUser_upsertUser_setLastXP. simpl. f_equal. apply granted_eta.
  - reflexivity.
  - intros k Hk. apply getUser_grant_other. exact Hk.
Qed.

(** ** A run of messages *)

Lemma granted_last (env : Env) (rec : UserRow) :
  last_xp_ts (granted env rec) = now_leveling env.
Proof. rewrite <- granted_eta. reflexivity. Qed.


Lemma deliver_app (rejects : Action -> bool) (l1 l2 : list (Env * Message)) (w : World) :
  deliver rejects (l1 ++ l2) w = deliver rejects l2 (deliver rejects l1 w).
Proof. unfold deliver. apply fold_left_app. Qed.

Lemma deliver_keeps_config (rejects : Action -> bool) (gid uid : string)
    (events : list (Env * Message)) :
  forall w,
    levelingOff (Sql.getCfg gid (db w)) = false ->
    Forall (reaches_leveling gid uid) events ->
    spaced (last_xp_ts (default zero_record (Sql.getUser gid uid (db w)))) events ->
    guild_config (db (deliver rejects events w)) = guild_config (db w).
Proof.
  induction events as [| [env m] rest IH]; intros w Hon Hall Hsp; [reflexivity |].
  apply Forall_cons in Hall as [Hev Hall].
  destruct Hev as ((g & Hg & <-) & <- & Hh & Ha & _).
  destruct Hsp as [Hcd Hsp]. simpl in *.
  destruct (message_grants rejects env m g w Hg Hh Ha Hon Hcd) as (Hrec & Hcfg & _).
  unfold deliver in *. simpl.
  set (w' := snd (messageCreate rejects env m w)) in *.
  rewrite IH; [exact Hcfg | | exact Hall |].
  - unfold Sql.getCfg in *. rewrite Hcfg. exact Hon.
  - rewrite Hrec. simpl. rewrite granted_last. exact Hsp.
Qed.


(** A gain that stays below the threshold is simply added. *)
Lemma granted_below (env : Env) (rec : UserRow) :
  xp rec + gainOf env < xpForNext (level rec) ->
  granted env rec =
    {| xp := xp rec + gainOf env; level := level rec; last_xp_ts := now_leveling env |}.
Proof.
  intros Hlt. unfold granted. rewrite !or_zero_id, levelLoop_step.
  destruct (Z.leb_spec (xpForNext (level rec)) (xp rec + gainOf env)); [lia | reflexivity].
Qed.


(** ** C4: gain, level-up loop, and the five-message scenario *)



(** ** What a handler run adds to the trace *)

Lemma issued_app (w w' : World) (new : list Event) :
  trace w' = trace w ++ new -> issued w w' = new.
Proof. intros Htr. unfold issued. rewrite Htr. apply drop_app_length. Qed.

Lemma issued_log1 (w : World) (e : Event) : issued w (log_event e w) = [e].
Proof. apply issued_app. reflexivity. Qed.

Lemma issued_log2 (w : World) (e1 e2 : Event) :
  issued w (log_event e2 (log_event e1 w)) = [e1; e2].
Proof. apply issued_app. simpl. rewrite <- app_assoc. reflexivity. Qed.

Lemma keeps_db_ret {A} (a : A) : keeps_db (ret a).
Proof. intros w. reflexivity. Qed.

Lemma keeps_db_bind {A B} (m : Async A) (k : A -> Async B) :
  keeps_db m -> (forall a, keeps_db (k a)) -> keeps_db (bind m k).
Proof.
  intros Hm Hk w. unfold bind. specialize (Hm w).
  destruct (m w) as [[a | c] w1]; simpl in *; [rewrite Hk |]; exact Hm.
Qed.

Lemma effect_db (a : Action) (w : World) : db (effect a w) = db w.
Proof. destruct a; reflexivity. Qed.

Lemma keeps_db_await (rejects : Action -> bool) (a : Action) : keeps_db (await rejects a).
Proof. intros w. unfold await. destruct (rejects a); simpl; [| rewrite effect_db]; reflexivity. Qed.

Lemma keeps_db_catch_ignore (m : Async unit) : keeps_db m -> keeps_db (catch_ignore m).
Proof.
  intros Hm w. unfold catch_ignore. specialize (Hm w).
  destruct (m w) as [[a | c] w1]; exact Hm.
Qed.

Lemma keeps_db_floating (m : Async unit) : keeps_db m -> keeps_db (floating m).
Proof.
  intros Hm w. unfold floating. specialize (Hm w).
  destruct (m w) as [[a | c] w1]; exact Hm.
Qed.

Lemma keeps_db_getCfg (gid : string) : keeps_db (run_getCfg gid).
Proof. intros w. reflexivity. Qed.

Lemma keeps_db_send_log (rejects : Action -> bool) (g : Guild) (cfg : option CfgRow)
    (text : Content) :
  keeps_db (send_log rejects g cfg text).
Proof.
  unfold send_log. destruct (find_channel g _) as [[id []] |];
    auto using keeps_db_ret, keeps_db_floating, keeps_db_await.
Qed.

Create HintDb keeps_db.
#[local] Hint Resolve keeps_db_ret keeps_db_bind keeps_db_await keeps_db_catch_ignore
  keeps_db_floating keeps_db_getCfg keeps_db_send_log : keeps_db.

(** The block path leaves the store alone. *)
Lemma deleteInvite_db (rejects : Action -> bool) (g : Guild) (message : Message) (w : World) :
  db (snd (deleteInvite rejects g message w)) = db w.
Proof.
  revert w. change (keeps_db (deleteInvite rejects g message)).
  unfold deleteInvite. auto 10 with keeps_db.
Qed.

(** The handler either leaves the store as it was or performs a grant for
    the author. *)
Lemma messageCreate_store (rejects : Action -> bool) (env : Env) (message : Message) (w : World) :
  let w' := snd (messageCreate rejects env message w) in
  db w' = db w \/
  exists g, guild message = Some g /\
    let uid := user_id (author message) in
    Sql.getUser (guild_id g) uid (db w') = Some (granted env (recordOf (guild_id g) uid w)) /\
    forall k, k <> (guild_id g, uid) -> users (db w') !! k = users (db w) !! k.
Proof.
  intros w'. subst w'.
  destruct (guild message) as [g |] eqn:Hg;
    [| left; unfold messageCreate; rewrite Hg; reflexivity].
  destruct (bot (author message)) eqn:Hb;
    [left; unfold messageCreate; rewrite Hg, Hb; reflexivity |].
  destruct (blocksInvite env message) eqn:Hblock.
  { left. rewrite (messageCreate_blocked rejects env message g w Hg Hb Hblock).
    apply deleteInvite_db. }
  destruct (levelingOff (Sql.getCfg (guild_id g) (db w))) eqn:Hoff.
  { left. rewrite (leveling_off rejects env message g w Hg Hb Hblock Hoff). reflexivity. }
  destruct (Z_lt_le_dec
              (now_leveling env - last_xp_ts (recordOf (guild_id g) (user_id (author message)) w))
              cooldownMs) as [Hcd | Hcd].
  { left. rewrite (leveling_cooldown rejects env message g w Hg Hb Hblock Hoff Hcd).
    reflexivity. }
  right. exists g. split; [reflexivity |].
  destruct (message_grants rejects env message g w Hg Hb Hblock Hoff Hcd) as (H1 & _ & H3).
  split; assumption.
Qed.

(** ** C5: the XP invariant *)

Lemma granted_invariant (env : Env) (rec : UserRow) :
  0 <= xp rec -> 0 <= draw env -> xp_invariant (granted env rec).
Proof.
  intros Hxp Hdraw. unfold xp_invariant, granted. rewrite !or_zero_id.
  pose proof (levelLoop_exit (xp rec + gainOf env) (level rec) false) as Hexit.
  destruct (levelLoop _ _ _) as [[x l] u]. simpl.
  destruct Hexit as [Hlt Hnn]. unfold gainOf in *. split; [apply Hnn; lia | exact Hlt].
Qed.

(** C5.  Whatever message the handler receives, on a draw within 0..10: a
    stored progression record that satisfied 0 <= xp < threshold(level)
    before (for the author without a record, the zero record stands in)
    satisfies it again afterwards; this holds for the record of every
    community and member. *)
Theorem C5_xp_invariant (rejects : Action -> bool) (env : Env) (message : Message)
    (w : World) (key : string * string) :
  0 <= draw env <= 10 ->
  (forall r, users (db w) !! key = Some r -> xp_invariant r) ->
  forall r', users (db (snd (messageCreate rejects env message w))) !! key = Some r' ->
             xp_invariant r'.
Proof.
  intros Hdraw Hbefore r' Hafter.
  destruct (messageCreate_store rejects env message w) as [Hsame | (g & Hg & Hrec & Hother)].
  - rewrite Hsame in Hafter. apply Hbefore. exact Hafter.
  - destruct (decide (key = (guild_id g, user_id (author message)))) as [-> | Hne].
    + unfold Sql.getUser in Hrec. rewrite Hrec in Hafter. injection Hafter as <-.
      apply granted_invariant; [| lia].
      unfold recordOf, Sql.getUser.
      destruct (users (db w) !! (guild_id g, user_id (author message))) as [r |] eqn:Hr; simpl.
      * apply (Hbefore r eq_refl).
      * lia.
    + rewrite (Hother key Hne) in Hafter. apply Hbefore. exact Hafter.
Qed.

Lemma C5_xp_invariant_witness :
  xp_invariant {| xp := 15; level := 1; last_xp_ts := 60000 |}.
Proof.
  apply (C5_xp_invariant Sample.accept_all (Sample.at_time 60000 10) (Sample.says "hello" 0)
           Sample.seasoned ("g", "u")).
  - simpl. lia.
  - intros r Hr. vm_compute in Hr. injection Hr as <-.
    unfold xp_invariant, xpForNext. simpl. lia.
  - vm_compute. reflexivity.
Defined.

(** ** C2: cooldown and store writes *)

(** C2 as the code has it.  For a message that reaches the leveling step
    of a community where leveling is on: within the cooldown window of
    60 * 1000 ms since [last_xp_ts] the handler writes nothing and leaves
    the store as it was; otherwise it runs two store writes in a row, the
    upsert of xp and level (which leaves the [last_xp_ts] of an existing
    row alone) and then the update of [last_xp_ts] to now, after which the
    stored record holds the new xp, the new level and now. *)
Theorem C2_cooldown_and_writes (rejects : Action -> bool) (env : Env) (message : Message)
    (g : Guild) (w : World) :
  guild message = Some g ->
  bot (author message) = false ->
  blocksInvite env message = false ->
  levelingOff (Sql.getCfg (guild_id g) (db w)) = false ->
  let gid := guild_id g in
  let uid := user_id (author message) in
  let rec := recordOf gid uid w in
  let now := now_leveling env in
  let w' := snd (messageCreate rejects env message w) in
  cooldownMs = 60000 /\
  (now - last_xp_ts rec < cooldownMs ->
     writes_in (issued w w') = [] /\ db w' = db w) /\
  (cooldownMs <= now - last_xp_ts rec ->
     writes_in (issued w w') =
       [UpsertUser gid uid {| xp := xp (granted env rec); level := level (granted env rec);
                              last_xp_ts := last_xp_ts rec |};
        SetLastXP now gid uid] /\
     Sql.getUser gid uid (db w') =
       Some {| xp := xp (granted env rec); level := level (granted env rec);
               last_xp_ts := now |}).
Proof.
  intros Hg Hh Ha Hon gid uid rec now w'. split; [reflexivity | split].
  - intros Hcd. subst w'.
    rewrite (leveling_cooldown rejects env message g w Hg Hh Ha Hon Hcd).
    simpl. rewrite issued_log2. split; reflexivity.
  - intros Hcd.
    destruct (leveling_grant rejects env message g w Hg Hh Ha Hon Hcd)
      as (_ & Hdb & Htr & _).
    fold gid uid rec now w' in Hdb, Htr. split.
    + rewrite (issued_app _ _ _ Htr). destruct (levelsUp env rec); reflexivity.
    + rewrite Hdb, getUser_upsertUser_setLastXP. reflexivity.
Qed.

Lemma C2_cooldown_and_writes_witness :
  let w := Sample.configured Sample.leveling_on in
  let w' := snd (messageCreate Sample.accept_all (Sample.at_time 100000 5)
                               (Sample.says "hello" 0) w) in
  Sql.getUser "g" "u" (db w') = Some {| xp := 20; level := 0; last_xp_ts := 100000 |}.
Proof.
  intros w w'.
  destruct (C2_cooldown_and_writes Sample.accept_all (Sample.at_time 100000 5)
              (Sample.says "hello" 0) Sample.town w
              eq_refl eq_refl eq_refl eq_refl) as (_ & _ & Hgrant).
  destruct Hgrant as [_ Hrec]; [vm_compute; discriminate |].
  exact Hrec.
Defined.

(** A message that earns XP makes the handler write to the store twice,
    not once: first [upsertUser], then [setLastXP]. *)
Lemma C2_counterexample :
  let w := Sample.configured Sample.leveling_on in
  let w' := snd (messageCreate Sample.accept_all (Sample.at_time 100000 5)
                               (Sample.says "hello" 0) w) in
  60 <= 100000 - last_xp_ts (recordOf "g" "u" w) /\
  writes_in (issued w w') =
    [UpsertUser "g" "u" {| xp := 20; level := 0; last_xp_ts := 0 |};
     SetLastXP 100000 "g" "u"] /\
  length (writes_in (issued w w')) <> 1%nat.
Proof.
  split; [vm_compute; discriminate | split; [reflexivity | vm_compute; discriminate]].
Qed.

(** ** C1: the leveling gate *)

(** C1 as the code has it.  For a message that reaches the leveling step:
    the handler stops at the enabled check exactly when the community has
    no configuration record or the record's [leveling_enabled] is not 1,
    and it then does nothing beyond the one configuration read; when a
    record exists with [leveling_enabled] equal to 1 and the cooldown has
    elapsed, the grant is stored. *)
Theorem C1_leveling_gate (rejects : Action -> bool) (env : Env) (message : Message)
    (g : Guild) (w : World) :
  guild message = Some g ->
  bot (author message) = false ->
  blocksInvite env message = false ->
  let gid := guild_id g in
  let uid := user_id (author message) in
  let cfg := Sql.getCfg gid (db w) in
  let rec := recordOf gid uid w in
  let out := messageCreate rejects env message w in
  (levelingOff cfg = true <->
     cfg = None \/ exists c, cfg = Some c /\ leveling_enabled c <> 1) /\
  (levelingOff cfg = true ->
     out = (Fulfilled tt, log_event (Ran (GetCfg gid)) w)) /\
  (levelingOff cfg = false ->
     cooldownMs <= now_leveling env - last_xp_ts rec ->
     Sql.getUser gid uid (db (snd out)) = Some (granted env rec)).
Proof.
  intros Hg Hh Ha gid uid cfg rec out. split; [| split].
  - unfold levelingOff. destruct cfg as [c |].
    + destruct (Z.eqb_spec (leveling_enabled c) 1) as [He | Hne]; simpl.
      * split; [discriminate |].
        intros [Hnone | (c' & Hc' & Hne)]; [discriminate | congruence].
      * split; [| reflexivity]. intros _. right. exists c. auto.
    + split; [auto | reflexivity].
  - intros Hoff. apply (leveling_off rejects env message g w Hg Hh Ha Hoff).
  - intros Hon Hcd.
    apply (message_grants rejects env message g w Hg Hh Ha Hon Hcd).
Qed.

Lemma C1_leveling_gate_witness :
  messageCreate Sample.accept_all (Sample.at_time 100000 5) (Sample.says "hello" 0)
                Sample.blank
    = (Fulfilled tt, log_event (Ran (GetCfg "g")) Sample.blank).
Proof.
  destruct (C1_leveling_gate Sample.accept_all (Sample.at_time 100000 5)
              (Sample.says "hello" 0) Sample.town Sample.blank
              eq_refl eq_refl eq_refl) as (_ & Hoff & _).
  apply Hoff. reflexivity.
Defined.

(** The enabled flag as the claim reads it: on unless a record says
    otherwise. *)
Definition enabled_by_default (cfg : option CfgRow) : bool :=
  match cfg with
  | None => true
  | Some c => negb (leveling_enabled c =? 0)
  end.

(** In a community with no configuration record, a plain message of a
    member who never gained XP, well past any cooldown, earns nothing: the
    handler reads the configuration and returns. *)
Lemma C1_counterexample :
  let w := Sample.blank in
  let w' := snd (messageCreate Sample.accept_all (Sample.at_time 100000 5)
                               (Sample.says "hello" 0) w) in
  Sql.getCfg "g" (db w) = None /\
  enabled_by_default (Sql.getCfg "g" (db w)) = true /\
  cooldownMs <= 100000 - last_xp_ts (recordOf "g" "u" w) /\
  issued w w' = [Ran (GetCfg "g")] /\
  Sql.getUser "g" "u" (db w') = None.
Proof.
  repeat split; try reflexivity. vm_compute. discriminate.
Qed.

(** ** C10: messages of bots and direct messages *)

(** C10.  When the author of a message is a bot account, or the message
    has no guild, the handler returns at once: the world is left as it
    was, so no statement is run against the store (no read, no write) and
    no call is issued (no deletion, no message sent). *)
Theorem C10_bots_and_direct_messages_ignored (rejects : Action -> bool) (env : Env)
    (message : Message) (w : World) :
  guild message = None \/ bot (author message) = true ->
  messageCreate rejects env message w = (Fulfilled tt, w) /\
  issued w (snd (messageCreate rejects env message w)) = [].
Proof.
  intros Hskip.
  assert (Hout : messageCreate rejects env message w = (Fulfilled tt, w)).
  { unfold messageCreate. destruct Hskip as [Hnone | Hbot].
    - rewrite Hnone. reflexivity.
    - destruct (guild message); [rewrite Hbot |]; reflexivity. }
  split; [exact Hout |].
  rewrite Hout. unfold issued. simpl. apply drop_all.
Qed.

Lemma C10_bots_and_direct_messages_ignored_witness :
  let spam := {| message_id := "m"; guild := Some Sample.town;
                 author := {| user_id := "b"; bot := true; tag := "spam#0000" |};
                 member := Sample.alice_joined 0;
                 content := "join discord.gg/abc"; channel := "general" |} in
  messageCreate Sample.accept_all (Sample.at_time 100000 5) spam
                (Sample.configured Sample.leveling_on)
    = (Fulfilled tt, Sample.configured Sample.leveling_on).
Proof.
  intros spam.
  apply (C10_bots_and_direct_messages_ignored Sample.accept_all (Sample.at_time 100000 5)
           spam (Sample.configured Sample.leveling_on)).
  right. reflexivity.
Defined.

(** ** The invite pattern, characterised *)

(** A string with every code unit in canonical form. *)
Fixpoint upcase (s : string) : string :=
  match s with
  | EmptyString => EmptyString
  | String c s' => String (InviteRe.canonicalize c) (upcase s')
  end.

Lemma matches_here_spec (pat : string) :
  forall s, InviteRe.matches_here pat s = true <->
            exists mid rest, s = (mid ++ rest)%string /\ upcase mid = upcase pat.
Proof.
  induction pat as [| p pat IH]; intros s; simpl.
  - split; [intros _; exists EmptyString, s; auto | reflexivity].
  - destruct s as [| c s].
    + split; [discriminate |].
      intros (mid & rest & Hs & Hup). destruct mid; simpl in *; discriminate.
    + rewrite andb_true_iff, IH. split.
      * intros [Hc (mid & rest & -> & Hup)].
        apply Ascii.eqb_eq in Hc.
        exists (String c mid), rest. simpl. rewrite Hup, Hc. auto.
      * intros (mid & rest & Hs & Hup). destruct mid as [| c' mid]; [discriminate |].
        simpl in Hs, Hup. injection Hs as <- ->. injection Hup as Hc Hup.
        split; [apply Ascii.eqb_eq; congruence | exists mid, rest; auto].
Qed.

Lemma search_spec (pat : string) :
  forall s, InviteRe.search pat s = true <->
            exists pre mid post, s = (pre ++ mid ++ post)%string /\ upcase mid = upcase pat.
Proof.
  induction s as [| c s IH]; simpl InviteRe.search; rewrite orb_true_iff, matches_here_spec.
  - split.
    + intros [(mid & rest & Hs & Hup) | Hf]; [| discriminate].
      exists EmptyString, mid, rest. auto.
    + intros (pre & mid & post & Hs & Hup). left.
      destruct pre; [exists mid, post; auto | discriminate].
  - rewrite IH. split.
    + intros [(mid & rest & Hs & Hup) | (pre & mid & post & -> & Hup)].
      * exists EmptyString, mid, rest. auto.
      * exists (String c pre), mid, post. auto.
    + intros (pre & mid & post & Hs & Hup). destruct pre as [| c' pre].
      * left. exists mid, post. auto.
      * right. simpl in Hs. injection Hs as <- ->. exists pre, mid, post. auto.
Qed.

(** The pattern matches exactly the texts that contain, in any letter
    case, one of the two invite URL forms. *)
Lemma invite_test_spec (text : string) :
  InviteRe.test text = true <->
  exists pre mid post, text = (pre ++ mid ++ post)%string /\
    (upcase mid = "DISCORD.GG/" \/ upcase mid = "DISCORD.COM/INVITE/").
Proof.
  unfold InviteRe.test. rewrite orb_true_iff, !search_spec. split.
  - intros [(pre & mid & post & Hs & Hup) | (pre & mid & post & Hs & Hup)];
      exists pre, mid, post; (split; [exact Hs |]); [left | right]; exact Hup.
  - intros (pre & mid & post & Hs & [Hup | Hup]); [left | right];
      exists pre, mid, post; (split; [exact Hs | exact Hup]).
Qed.

(** ** The trace of the block path *)

Lemma trace_send_log (rejects : Action -> bool) (g : Guild) (cfg : option CfgRow)
    (text : Content) (w : World) :
  trace (snd (send_log rejects g cfg text w)) =
    trace w ++ match find_channel g (cfg ≫= log_channel_id) with
               | Some (id, true) => [Called (ChannelSend id text)]
               | _ => []
               end.
Proof.
  unfold send_log. destruct (find_channel g _) as [[id []] |]; simpl;
    try (symmetry; apply app_nil_r).
  unfold floating, await. destruct (rejects _); reflexivity.
Qed.

Lemma trace_deleteInvite (rejects : Action -> bool) (g : Guild) (message : Message) (w : World) :
  trace (snd (deleteInvite rejects g message w)) =
    trace w ++
    [Called (MessageDelete (channel message) (message_id message));
     Called (ChannelSend (channel message) (InviteWarning (user_id (user (member message)))));
     Ran (GetCfg (guild_id g))] ++
    match find_channel g (Sql.getCfg (guild_id g) (db w) ≫= log_channel_id) with
    | Some (id, true) =>
        [Called (ChannelSend id (InviteDeleted (tag (user (member message))) (channel message)))]
    | _ => []
    end.
Proof.
  unfold deleteInvite, bind.
  set (del := MessageDelete _ _). set (warn := ChannelSend _ _).
  assert (H1 : catch_ignore (await rejects del) w = (Fulfilled tt, log_event (Called del) w)).
  { unfold catch_ignore, await. destruct (rejects del); reflexivity. }
  rewrite H1.
  assert (H2 : catch_ignore (await rejects warn) (log_event (Called del) w)
               = (Fulfilled tt, log_event (Called warn) (log_event (Called del) w))).
  { unfold catch_ignore, await. destruct (rejects warn); reflexivity. }
  rewrite H2. unfold run_getCfg. rewrite trace_send_log. simpl.
  rewrite <- !app_assoc. reflexivity.
Qed.

(** ** C3: the automod decision *)

(** Closes a goal [e ∉ l] for a literal list [l] none of whose members
    has the constructor of [e]. *)
Ltac absent_from_list :=
  let Hin := fresh "Hin" in
  intros Hin;
  repeat (apply elem_of_cons in Hin as [Hin | Hin]; [discriminate Hin |]);
  apply elem_of_nil in Hin; exact Hin.

(** The leveling step never deletes a message. *)
Lemma allowed_not_deleted (rejects : Action -> bool) (env : Env) (message : Message)
    (g : Guild) (w : World) (c m : string) :
  guild message = Some g ->
  bot (author message) = false ->
  blocksInvite env message = false ->
  Called (MessageDelete c m) ∉ issued w (snd (messageCreate rejects env message w)).
Proof.
  intros Hg Hh Ha.
  destruct (levelingOff (Sql.getCfg (guild_id g) (db w))) eqn:Hoff.
  { rewrite (leveling_off rejects env message g w Hg Hh Ha Hoff). simpl.
    rewrite issued_log1. absent_from_list. }
  destruct (Z_lt_le_dec
              (now_leveling env - last_xp_ts (recordOf (guild_id g) (user_id (author message)) w))
              cooldownMs) as [Hcd | Hcd].
  { rewrite (leveling_cooldown rejects env message g w Hg Hh Ha Hoff Hcd). simpl.
    rewrite issued_log2. absent_from_list. }
  destruct (leveling_grant rejects env message g w Hg Hh Ha Hoff Hcd) as (_ & _ & Htr & _).
  rewrite (issued_app _ _ _ Htr). destruct (levelsUp env _); absent_from_list.
Qed.

(** C3.  For a message of a human author in a guild, the handler deletes
    the message (Block) if and only if its text matches the invite pattern,
    the member joined less than 7 days (in ms) before now, and the member
    lacks ManageMessages; otherwise (Allow) the message goes on to the
    leveling step.  The pattern matches exactly the texts containing, in
    any letter case, "discord.gg/" or "discord.com/invite/".  For the text
    "discord.gg/abc" of a member without the permission: joined 7 days
    minus 1 ms ago, the message is deleted; joined exactly 7 days ago, it
    is not. *)
Theorem C3_automod_decision (rejects : Action -> bool) (env : Env) (message : Message)
    (g : Guild) (w : World) :
  guild message = Some g ->
  bot (author message) = false ->
  let out := messageCreate rejects env message w in
  let who := member message in
  let now := now_automod env in
  let deleted :=
    Called (MessageDelete (channel message) (message_id message)) ∈ issued w (snd out) in
  (deleted <->
     InviteRe.test (content message) = true /\
     now - joinedTimestamp who < 7 * 24 * 60 * 60 * 1000 /\
     canManageMessages who = false) /\
  (deleted -> out = deleteInvite rejects g message w) /\
  (~ deleted -> out = leveling rejects env g message w) /\
  (InviteRe.test (content message) = true <->
     exists pre mid post, content message = (pre ++ mid ++ post)%string /\
       (upcase mid = "DISCORD.GG/" \/ upcase mid = "DISCORD.COM/INVITE/")) /\
  (content message = "discord.gg/abc" -> canManageMessages who = false ->
     (joinedTimestamp who = now - (sevenDays - 1) -> deleted) /\
     (joinedTimestamp who = now - sevenDays -> ~ deleted)).
Proof.
  intros Hg Hh out who now deleted.
  assert (Hblock : blocksInvite env message = true <->
            InviteRe.test (content message) = true /\
            now - joinedTimestamp who < 7 * 24 * 60 * 60 * 1000 /\
            canManageMessages who = false).
  { unfold blocksInvite. fold who now.
    rewrite !andb_true_iff, negb_true_iff, Z.ltb_lt. reflexivity. }
  assert (Hdel : deleted <-> blocksInvite env message = true).
  { unfold deleted, out. split.
    - intros Hin. destruct (blocksInvite env message) eqn:Hb; [reflexivity |].
      exfalso. revert Hin. apply allowed_not_deleted with (g := g); assumption.
    - intros Hb. rewrite (messageCreate_blocked rejects env message g w Hg Hh Hb).
      rewrite (issued_app _ _ _ (trace_deleteInvite rejects g message w)).
      simpl. apply elem_of_cons. left. reflexivity. }
  split; [rewrite Hdel; exact Hblock |].
  split; [intros Hd; apply Hdel in Hd;
          apply (messageCreate_blocked rejects env message g w Hg Hh Hd) |].
  split.
  { intros Hnd. apply (messageCreate_allowed rejects env message g w Hg Hh).
    destruct (blocksInvite env message); [exfalso; apply Hnd, Hdel; reflexivity | reflexivity]. }
  split; [apply invite_test_spec |].
  intros Htext Hperm. rewrite Hdel, Hblock, Htext. unfold sevenDays. split.
  - intros Hj. rewrite Hj. split; [reflexivity | split; [lia | exact Hperm]].
  - intros Hj. rewrite Hj. intros (_ & Hlt & _). lia.
Qed.

Lemma C3_automod_decision_witness :
  let newcomer := Sample.says "discord.gg/abc" (700000000 - (sevenDays - 1)) in
  let out := messageCreate Sample.accept_all (Sample.at_time 700000000 0) newcomer
                           (Sample.configured Sample.leveling_on) in
  Called (MessageDelete "general" "m")
    ∈ issued (Sample.configured Sample.leveling_on) (snd out).
Proof.
  intros newcomer out.
  destruct (C3_automod_decision Sample.accept_all (Sample.at_time 700000000 0) newcomer
              Sample.town (Sample.configured Sample.leveling_on) eq_refl eq_refl)
    as (_ & _ & _ & _ & Hedge).
  destruct (Hedge eq_refl eq_refl) as [Hblock _].
  apply Hblock. reflexivity.
Defined.

(** ** The role menu *)

Lemma rolesOf_with_roles (g u : string) (rs : gset string) (w : World) :
  rolesOf g u (with_roles g u rs w) = rs.
Proof. unfold rolesOf, with_roles. simpl. rewrite lookup_insert_eq. reflexivity. Qed.

Lemma rolesOf_log_event (g u : string) (e : Event) (w : World) :
  rolesOf g u (log_event e w) = rolesOf g u w.
Proof. reflexivity. Qed.

(** The roles of the menu that the bot may edit, and those of them the
    member holds, as the handler computes them. *)
Definition manageableOf (i : SelectMenu) : list string :=
  filter (fun rid => roles_cache (menu_guild i) !! rid = Some true) (component_options i).

Definition toRemoveOf (i : SelectMenu) (held : gset string) : gset string :=
  filter (fun r => r ∈ manageableOf i) held.

(** A run of the reconciler in which no call is rejected: the four calls
    in order, and the member's roles afterwards. *)
Lemma roleMenu_fulfilled (rejects : Action -> bool) (i : SelectMenu) (w : World) :
  String.prefix "role_menu:" (customId i) = true ->
  fst (roleMenu rejects i w) = Fulfilled tt ->
  let gid := guild_id (menu_guild i) in
  let uid := user_id (menu_user i) in
  let held := rolesOf gid uid w in
  let w' := snd (roleMenu rejects i w) in
  onSelectMenu rejects i w = (Fulfilled tt, w') /\
  issued w w' =
    [Called (MembersFetch gid uid);
     Called (RolesRemove gid uid (toRemoveOf i held));
     Called (RolesAdd gid uid (values i));
     Called (InteractionReply RolesUpdated)] /\
  rolesOf gid uid w' = (held ∖ toRemoveOf i held) ∪ list_to_set (values i).
Proof.
  intros Hns Hok gid uid held w'.
  split.
  { unfold onSelectMenu, try_catch. subst w'.
    destruct (roleMenu rejects i w) as [[[] | c] w1]; [reflexivity | discriminate Hok]. }
  subst w'. revert Hok. unfold roleMenu. rewrite Hns. cbn [negb].
  unfold bind, fetchMember, await. fold gid uid.
  repeat (match goal with
          | |- context [rejects ?a] =>
              destruct (rejects a); cbn [fst snd]; [discriminate |]
          end).
  intros _. split.
  - apply issued_app. simpl. rewrite <- !app_assoc. reflexivity.
  - cbn [effect]. rewrite !rolesOf_log_event, rolesOf_with_roles.
    rewrite ?rolesOf_log_event, rolesOf_with_roles. reflexivity.
Qed.

(** ** C7: convergence of the role menu *)

(** C7.  For a selection in a role menu all of whose candidates the bot
    may edit, the selection being among the candidates, and a run in which
    no call is rejected: the handler issues the removal before the
    addition; afterwards the roles the member holds among the candidates
    are exactly the selection, and the roles the member holds outside the
    candidates are those held before. *)
Theorem C7_role_menu_converges (rejects : Action -> bool) (i : SelectMenu) (w : World) :
  String.prefix "role_menu:" (customId i) = true ->
  (forall r, r ∈ component_options i -> roles_cache (menu_guild i) !! r = Some true) ->
  (forall r, r ∈ values i -> r ∈ component_options i) ->
  fst (roleMenu rejects i w) = Fulfilled tt ->
  let gid := guild_id (menu_guild i) in
  let uid := user_id (menu_user i) in
  let held := rolesOf gid uid w in
  let w' := snd (onSelectMenu rejects i w) in
  let held' := rolesOf gid uid w' in
  filter (fun r => r ∈ component_options i) held' = list_to_set (values i) /\
  filter (fun r => r ∉ component_options i) held' =
    filter (fun r => r ∉ component_options i) held /\
  issued w w' =
    [Called (MembersFetch gid uid);
     Called (RolesRemove gid uid (filter (fun r => r ∈ component_options i) held));
     Called (RolesAdd gid uid (values i));
     Called (InteractionReply RolesUpdated)].
Proof.
  intros Hns Hman Hsel Hok gid uid held w' held'.
  destruct (roleMenu_fulfilled rejects i w Hns Hok) as (Hout & Htr & Hroles).
  fold gid uid held in Htr, Hroles.
  assert (Hw' : w' = snd (roleMenu rejects i w)) by (unfold w'; rewrite Hout; reflexivity).
  assert (Hrem : toRemoveOf i held = filter (fun r => r ∈ component_options i) held).
  { apply set_eq. intros r. unfold toRemoveOf, manageableOf.
    rewrite !elem_of_filter, list_elem_of_filter. naive_solver. }
  assert (Hheld' : held' = (held ∖ toRemoveOf i held) ∪ list_to_set (values i)).
  { unfold held'. rewrite Hw'. exact Hroles. }
  split; [| split].
  - apply set_eq. intros r.
    rewrite elem_of_filter, Hheld', Hrem, elem_of_union, elem_of_difference,
      elem_of_filter, elem_of_list_to_set.
    naive_solver.
  - apply set_eq. intros r.
    rewrite !elem_of_filter, Hheld', Hrem, elem_of_union, elem_of_difference,
      elem_of_filter, elem_of_list_to_set.
    naive_solver.
  - rewrite Hw', Htr, Hrem. reflexivity.
Qed.

Lemma C7_role_menu_converges_witness :
  let i := Sample.picks ["A"; "B"; "C"] ["B"; "C"] in
  let w := Sample.holding {[ "A"; "B"; "Z" ]} in
  let held' := rolesOf "g" "u" (snd (onSelectMenu Sample.accept_all i w)) in
  filter (fun r => r ∈ ["A"; "B"; "C"]) held' = list_to_set ["B"; "C"] /\
  filter (fun r => r ∉ ["A"; "B"; "C"]) held' = {[ "Z" ]}.
Proof.
  intros i w held'.
  destruct (C7_role_menu_converges Sample.accept_all i w) as (Hin & Hout & _).
  - reflexivity.
  - intros r Hr. simpl in Hr.
    repeat (apply elem_of_cons in Hr as [-> | Hr]; [reflexivity |]).
    apply elem_of_nil in Hr. destruct Hr.
  - intros r Hr. simpl in Hr.
    repeat (apply elem_of_cons in Hr as [-> | Hr];
            [simpl; rewrite !elem_of_cons; auto |]).
    apply elem_of_nil in Hr. destruct Hr.
  - reflexivity.
  - split; [exact Hin |]. etransitivity; [exact Hout |]. vm_compute. reflexivity.
Defined.

(** ** C6: unmanageable roles and the add call *)

(** Whatever the selection, once the fetch and the removal went through
    the handler passes the whole selection to the add call. *)
Lemma roleMenu_adds_whole_selection (rejects : Action -> bool) (i : SelectMenu) (w : World) :
  String.prefix "role_menu:" (customId i) = true ->
  let gid := guild_id (menu_guild i) in
  let uid := user_id (menu_user i) in
  rejects (MembersFetch gid uid) = false ->
  rejects (RolesRemove gid uid (toRemoveOf i (rolesOf gid uid w))) = false ->
  Called (RolesAdd gid uid (values i)) ∈ issued w (snd (roleMenu rejects i w)).
Proof.
  intros Hns gid uid Hfetch Hremove.
  unfold roleMenu. rewrite Hns. cbn [negb].
  unfold bind, fetchMember. fold gid uid. rewrite Hfetch. cbn [fst snd].
  rewrite rolesOf_log_event.
  change (filter _ (rolesOf gid uid w)) with (toRemoveOf i (rolesOf gid uid w)).
  unfold await at 1. rewrite Hremove.
  unfold await.
  destruct (rejects (RolesAdd gid uid (values i))); cbn [fst snd];
    [| destruct (rejects (InteractionReply RolesUpdated)); cbn [fst snd]];
    (erewrite issued_app; [| simpl; rewrite <- ?app_assoc; reflexivity]);
    simpl; rewrite !elem_of_cons; auto.
Qed.

(** C6, the code at a failing input.  The menu offers A (editable) and D
    (not editable); the member holds A and picks D.  The removal is
    restricted to the editable candidates, but the add call receives D;
    on a platform that refuses to add a role the bot cannot edit, the
    interaction ends with the failure notice after A has been removed. *)
Theorem C6_unmanageable_role_reaches_add :
  let i := Sample.picks ["A"; "D"] ["D"] in
  let w := Sample.holding {[ "A" ]} in
  let w' := snd (onSelectMenu Sample.refuse_unmanageable i w) in
  roles_cache (menu_guild i) !! "D" = Some false /\
  manageableOf i = ["A"] /\
  issued w w' =
    [Called (MembersFetch "g" "u");
     Called (RolesRemove "g" "u" {[ "A" ]});
     Called (RolesAdd "g" "u" ["D"]);
     Called (InteractionReply SomethingWentWrong)] /\
  rolesOf "g" "u" w' = ∅.
Proof.
  repeat split; vm_compute; reflexivity.
Qed.

(** ** C9: containment of failed calls *)

(** Both handlers always run to completion, whatever the platform
    rejects. *)
Lemma guildMemberAdd_fulfils (rejects : Action -> bool) (g : Guild) (who : Member) (w : World) :
  fst (guildMemberAdd rejects g who w) = Fulfilled tt.
Proof.
  unfold guildMemberAdd, bind, run_getCfg, send_log. cbn [fst snd].
  destruct (find_role g _) as [[r []] |];
    unfold catch_ignore, await; cbn [fst snd];
    repeat (match goal with
            | |- context [find_channel ?g ?c] => destruct (find_channel g c) as [[? []] |]
            | |- context [rejects ?a] => destruct (rejects a)
            end; unfold floating, ret; cbn [fst snd]);
    reflexivity.
Qed.

(** The rejections left without a handler by the join handler: the send
    to the log channel, when it fails, and nothing else. *)
Lemma guildMemberAdd_unhandled (rejects : Action -> bool) (g : Guild) (who : Member) (w : World) :
  unhandled (snd (guildMemberAdd rejects g who w)) =
    unhandled w ++
    match find_channel g (Sql.getCfg (guild_id g) (db w) ≫= log_channel_id) with
    | Some (id, true) =>
        let call := ChannelSend id (MemberJoined (tag (user who))) in
        if rejects call then [call] else []
    | _ => []
    end.
Proof.
  unfold guildMemberAdd, bind, run_getCfg, send_log. cbn [fst snd].
  change (db (log_event _ w)) with (db w).
  destruct (find_channel g (Sql.getCfg (guild_id g) (db w) ≫= log_channel_id))
    as [[logid []] |];
    destruct (find_role g _) as [[r []] |];
    unfold catch_ignore, await; cbn [fst snd];
    repeat (match goal with
            | |- context [find_channel ?g ?c] => destruct (find_channel g c) as [[? []] |]
            | |- context [rejects ?a] => destruct (rejects a)
            end; unfold floating, ret; cbn [fst snd]);
    simpl; rewrite ?app_nil_r; reflexivity.
Qed.

(** The calls the join handler issues do not depend on which of them
    fail: no failure keeps a later call from being made. *)
Lemma guildMemberAdd_trace (rejects : Action -> bool) (g : Guild) (who : Member) (w : World) :
  trace (snd (guildMemberAdd rejects g who w)) =
    trace (snd (guildMemberAdd (fun _ => false) g who w)).
Proof.
  unfold guildMemberAdd, bind, run_getCfg, send_log. cbn [fst snd].
  change (db (log_event _ w)) with (db w).
  destruct (find_channel g (Sql.getCfg (guild_id g) (db w) ≫= log_channel_id))
    as [[logid []] |];
    destruct (find_role g _) as [[r []] |];
    unfold catch_ignore, await; cbn [fst snd];
    repeat (match goal with
            | |- context [find_channel ?g ?c] => destruct (find_channel g c) as [[? []] |]
            | |- context [rejects ?a] => destruct (rejects a)
            end; unfold floating, ret; cbn [fst snd]);
    reflexivity.
Qed.

(** The same for the block path of the message handler. *)
Lemma deleteInvite_unhandled (rejects : Action -> bool) (g : Guild) (message : Message)
    (w : World) :
  unhandled (snd (deleteInvite rejects g message w)) =
    unhandled w ++
    match find_channel g (Sql.getCfg (guild_id g) (db w) ≫= log_channel_id) with
    | Some (id, true) =>
        let call := ChannelSend id (InviteDeleted (tag (user (member message)))
                                                  (channel message)) in
        if rejects call then [call] else []
    | _ => []
    end.
Proof.
  unfold deleteInvite, bind, run_getCfg, send_log, catch_ignore, await. cbn [fst snd].
  repeat (match goal with
          | |- context [rejects (MessageDelete ?c ?m)] => destruct (rejects (MessageDelete c m))
          | |- context [rejects (ChannelSend ?c (InviteWarning ?m))] =>
              destruct (rejects (ChannelSend c (InviteWarning m)))
          end; cbn [fst snd]);
    change (db (log_event _ (log_event _ (log_event _ w)))) with (db w);
    destruct (find_channel g _) as [[logid []] |]; unfold floating, ret; cbn [fst snd];
    try destruct (rejects _); simpl; rewrite ?app_nil_r; reflexivity.
Qed.

(** C9, the code at failing inputs.  In a community with a log channel
    whose sends fail: the join handler and the block path of the message
    handler each leave the rejected log-channel send without a handler.
    A failing welcome channel, by contrast, leaves nothing behind. *)
Theorem C9_log_send_not_contained :
  let w := Sample.configured Sample.with_modlog in
  unhandled (snd (guildMemberAdd (Sample.channel_down "modlog") Sample.town
                                 (Sample.alice_joined 0) w))
    = [ChannelSend "modlog" (MemberJoined "alice#0001")] /\
  unhandled (snd (messageCreate (Sample.channel_down "modlog") (Sample.at_time 1000 0)
                                (Sample.says "discord.gg/abc" 0) w))
    = [ChannelSend "modlog" (InviteDeleted "alice#0001" "general")] /\
  unhandled (snd (guildMemberAdd (Sample.channel_down "general") Sample.town
                                 (Sample.alice_joined 0) w))
    = [].
Proof.
  repeat split; vm_compute; reflexivity.
Qed.

(** ** C8: configuration merges *)


Lemma or_null_nonempty (s : string) : s <> "" -> Js.or_null (Some s) = Some s.
Proof.
  intros Hs. unfold Js.or_null, Js.truthy.
  destruct (String.eqb_spec s ""); [contradiction | reflexivity].
Qed.

(** Every configuration command replaces the community's row by [merged],
    whether or not the reply that follows goes through. *)
Lemma handleCommand_db (rejects : Action -> bool) (gid : string) (cmd : ConfigCommand)
    (w : World) :
  db (snd (handleCommand rejects gid cmd w)) =
    Sql.upsertCfg gid (merged cmd (Sql.getCfg gid (db w))) (db w).
Proof.
  destruct cmd; simpl;
    unfold handleSetWelcome, handleSetAutorole, handleToggleLeveling, handleSetLog,
      bind, run_getCfg, run_upsertCfg, await; cbn [fst snd];
    destruct (rejects _); reflexivity.
Qed.


Lemma getCfg_upsertCfg (gid : string) (row : CfgRow) (d : Db) :
  Sql.getCfg gid (Sql.upsertCfg gid row d) = Some row.
Proof. unfold Sql.getCfg, Sql.upsertCfg. simpl. apply lookup_insert_eq. Qed.




(** * Further properties of the engine *)

(** ** The level curve *)

(** From level 0 on, the threshold is at least 100 and strictly
    increasing in the level. *)
Theorem xpForNext_grows (a b : Z) :
  0 <= a < b -> 100 <= xpForNext a < xpForNext b.
Proof. intros Hab. unfold xpForNext. split; nia. Qed.

Lemma xpForNext_grows_witness : 100 <= xpForNext 3 < xpForNext 7.
Proof. apply (xpForNext_grows 3 7). lia. Defined.

(** The XP spent on [n] level-ups starting at level [from]. *)
Fixpoint spent (from : Z) (n : nat) : Z :=
  match n with
  | O => 0
  | S k => xpForNext from + spent (from + 1) k
  end.

(** The loop loses no XP: what went in is what is left plus the
    thresholds of the levels gained. *)
Theorem levelLoop_conserves (newXP lvl : Z) (up : bool) :
  let '(x, l, _) := levelLoop newXP lvl up in
  lvl <= l /\ newXP = x + spent lvl (Z.to_nat (l - lvl)).
Proof.
  apply (levelLoop_rect
           (fun x0 l0 _ r => let '(x, l, _) := r in
                             l0 <= l /\ x0 = x + spent l0 (Z.to_nat (l - l0)))).
  - intros x l u _. rewrite Z.sub_diag. simpl. lia.
  - intros x l u [[rx rl] ru] _ [Hle Heq]. split; [lia |].
    replace (Z.to_nat (rl - l)) with (S (Z.to_nat (rl - (l + 1)))) by lia.
    simpl. lia.
Qed.

(** ** One message, at most one level *)

(** For a member at a level from 0 on whose record satisfies the XP
    invariant, and a draw within 0..10, a grant either adds the gain and
    keeps the level, or crosses exactly one threshold. *)
Theorem granted_one_level (env : Env) (rec : UserRow) :
  0 <= level rec ->
  xp_invariant rec ->
  0 <= draw env <= 10 ->
  granted env rec =
    if xp rec + gainOf env <? xpForNext (level rec)
    then {| xp := xp rec + gainOf env; level := level rec;
            last_xp_ts := now_leveling env |}
    else {| xp := xp rec + gainOf env - xpForNext (level rec); level := level rec + 1;
            last_xp_ts := now_leveling env |}.
Proof.
  intros Hl [Hx0 Hx1] Hd.
  destruct (Z.ltb_spec (xp rec + gainOf env) (xpForNext (level rec))) as [Hlt | Hge].
  - apply granted_below. exact Hlt.
  - unfold granted. rewrite !or_zero_id, levelLoop_step.
    destruct (Z.leb_spec (xpForNext (level rec)) (xp rec + gainOf env)); [| lia].
    rewrite levelLoop_step.
    assert (H100 : 100 <= xpForNext (level rec)) by (unfold xpForNext; nia).
    pose proof (xpForNext_increasing (level rec) Hl) as Hgrow.
    unfold gainOf in *.
    destruct (Z.leb_spec (xpForNext (level rec + 1))
                         (xp rec + (15 + draw env) - xpForNext (level rec)));
      [lia | reflexivity].
Qed.

Lemma granted_one_level_witness :
  granted (Sample.at_time 60000 10) {| xp := 90; level := 0; last_xp_ts := 0 |}
    = {| xp := 15; level := 1; last_xp_ts := 60000 |}.
Proof.
  rewrite (granted_one_level (Sample.at_time 60000 10)
             {| xp := 90; level := 0; last_xp_ts := 0 |}).
  - reflexivity.
  - simpl. lia.
  - unfold xp_invariant, xpForNext. simpl. lia.
  - simpl. lia.
Defined.

(** ** The level-up notice *)

Lemma levelsUp_iff (env : Env) (rec : UserRow) :
  levelsUp env rec = true <-> level rec < level (granted env rec).
Proof.
  unfold levelsUp, granted. rewrite !or_zero_id.
  pose proof (levelLoop_flag (xp rec + gainOf env) (level rec)) as Hflag.
  destruct (levelLoop _ _ _) as [[x l] u]. simpl. tauto.
Qed.

(** A message that earns XP makes the handler send something exactly when
    the member's level rises, and what it sends is the level-up notice for
    the level reached, to the channel of the message. *)
Theorem level_up_notice (rejects : Action -> bool) (env : Env) (message : Message)
    (g : Guild) (w : World) :
  guild message = Some g ->
  bot (author message) = false ->
  blocksInvite env message = false ->
  levelingOff (Sql.getCfg (guild_id g) (db w)) = false ->
  let uid := user_id (author message) in
  let rec := recordOf (guild_id g) uid w in
  cooldownMs <= now_leveling env - last_xp_ts rec ->
  let w' := snd (messageCreate rejects env message w) in
  forall a, Called a ∈ issued w w' <->
            level rec < level (granted env rec) /\
            a = ChannelSend (channel message) (LeveledUpTo uid (level (granted env rec))).
Proof.
  intros Hg Hh Ha Hon uid rec Hcd w' a.
  destruct (leveling_grant rejects env message g w Hg Hh Ha Hon Hcd) as (_ & _ & Htr & _).
  fold uid rec w' in Htr. rewrite (issued_app _ _ _ Htr), <- levelsUp_iff.
  destruct (levelsUp env rec); simpl; rewrite !elem_of_cons, elem_of_nil; split.
  - intros [H | [H | [H | [H | [H | []]]]]]; try discriminate H.
    injection H as ->. auto.
  - intros [_ ->]. auto 10.
  - intros [H | [H | [H | [H | []]]]]; discriminate H.
  - intros [H _]. discriminate H.
Qed.

Lemma level_up_notice_witness :
  Called (ChannelSend "general" (LeveledUpTo "u" 1))
    ∈ issued Sample.seasoned
             (snd (messageCreate Sample.accept_all (Sample.at_time 60000 10)
                                 (Sample.says "hello" 0) Sample.seasoned)).
Proof.
  apply (level_up_notice Sample.accept_all (Sample.at_time 60000 10) (Sample.says "hello" 0)
           Sample.town Sample.seasoned eq_refl eq_refl eq_refl eq_refl).
  - vm_compute. discriminate.
  - split; [vm_compute; reflexivity | reflexivity].
Defined.

(** ** Two messages within the cooldown *)

(** After a message that earned XP, a second message of the same member in
    the same community less than [cooldownMs] later changes nothing in the
    store and writes nothing. *)
Theorem second_message_within_cooldown (rejects : Action -> bool) (env1 env2 : Env)
    (m1 m2 : Message) (g1 g2 : Guild) (w : World) :
  guild m1 = Some g1 -> guild m2 = Some g2 -> guild_id g2 = guild_id g1 ->
  user_id (author m2) = user_id (author m1) ->
  bot (author m1) = false -> bot (author m2) = false ->
  blocksInvite env1 m1 = false -> blocksInvite env2 m2 = false ->
  levelingOff (Sql.getCfg (guild_id g1) (db w)) = false ->
  cooldownMs <= now_leveling env1
                - last_xp_ts (recordOf (guild_id g1) (user_id (author m1)) w) ->
  now_leveling env2 - now_leveling env1 < cooldownMs ->
  let w1 := snd (messageCreate rejects env1 m1 w) in
  let w2 := snd (messageCreate rejects env2 m2 w1) in
  db w2 = db w1 /\ writes_in (issued w1 w2) = [].
Proof.
  intros Hg1 Hg2 Hgid Huid Hh1 Hh2 Ha1 Ha2 Hon Hcd Hsoon w1 w2.
  destruct (message_grants rejects env1 m1 g1 w Hg1 Hh1 Ha1 Hon Hcd) as (Hrec & Hcfg & _).
  fold w1 in Hrec, Hcfg.
  assert (Hon1 : levelingOff (Sql.getCfg (guild_id g2) (db w1)) = false).
  { rewrite Hgid. unfold Sql.getCfg in *. rewrite Hcfg. exact Hon. }
  assert (Hcd2 : now_leveling env2
                 - last_xp_ts (recordOf (guild_id g2) (user_id (author m2)) w1) < cooldownMs).
  { unfold recordOf. rewrite Hgid, Huid, Hrec. simpl. rewrite granted_last. exact Hsoon. }
  unfold w2. rewrite (leveling_cooldown rejects env2 m2 g2 w1 Hg2 Hh2 Ha2 Hon1 Hcd2).
  simpl. rewrite issued_log2. split; reflexivity.
Qed.

Lemma second_message_within_cooldown_witness :
  let w1 := snd (messageCreate Sample.accept_all (Sample.at_time 60000 5)
                               (Sample.says "hello" 0)
                               (Sample.configured Sample.leveling_on)) in
  let w2 := snd (messageCreate Sample.accept_all (Sample.at_time 119999 5)
                               (Sample.says "again" 0) w1) in
  db w2 = db w1 /\ writes_in (issued w1 w2) = [].
Proof.
  apply (second_message_within_cooldown Sample.accept_all
           (Sample.at_time 60000 5) (Sample.at_time 119999 5)
           (Sample.says "hello" 0) (Sample.says "again" 0) Sample.town Sample.town
           (Sample.configured Sample.leveling_on));
    try reflexivity; vm_compute; discriminate.
Defined.

(** ** What the message handler leaves alone *)

Lemma deleteInvite_roles (rejects : Action -> bool) (g : Guild) (message : Message) (w : World) :
  member_roles (snd (deleteInvite rejects g message w)) = member_roles w.
Proof.
  unfold deleteInvite, bind, run_getCfg, send_log, catch_ignore, await. cbn [fst snd].
  repeat (match goal with
          | |- context [rejects (MessageDelete ?c ?m)] => destruct (rejects (MessageDelete c m))
          | |- context [rejects (ChannelSend ?c (InviteWarning ?m))] =>
              destruct (rejects (ChannelSend c (InviteWarning m)))
          end; cbn [fst snd]);
    destruct (find_channel g _) as [[logid []] |]; unfold floating, ret; cbn [fst snd];
    try destruct (rejects _); reflexivity.
Qed.

(** Whatever the message: the handler never changes a configuration
    record, never changes a role, and never changes the progression record
    of anyone but the author in the community of the message. *)
Theorem messageCreate_frame (rejects : Action -> bool) (env : Env) (message : Message)
    (w : World) :
  let w' := snd (messageCreate rejects env message w) in
  guild_config (db w') = guild_config (db w) /\
  member_roles w' = member_roles w /\
  forall gid uid,
    (forall g, guild message = Some g -> (gid, uid) <> (guild_id g, user_id (author message))) ->
    Sql.getUser gid uid (db w') = Sql.getUser gid uid (db w).
Proof.
  intros w'. subst w'.
  destruct (guild message) as [g |] eqn:Hg;
    [| unfold messageCreate; rewrite Hg; auto].
  destruct (bot (author message)) eqn:Hb;
    [unfold messageCreate; rewrite Hg, Hb; auto |].
  destruct (blocksInvite env message) eqn:Hblock.
  { rewrite (messageCreate_blocked rejects env message g w Hg Hb Hblock).
    rewrite deleteInvite_db, deleteInvite_roles. auto. }
  destruct (levelingOff (Sql.getCfg (guild_id g) (db w))) eqn:Hoff.
  { rewrite (leveling_off rejects env message g w Hg Hb Hblock Hoff). auto. }
  destruct (Z_lt_le_dec
              (now_leveling env - last_xp_ts (recordOf (guild_id g) (user_id (author message)) w))
              cooldownMs) as [Hcd | Hcd].
  { rewrite (leveling_cooldown rejects env message g w Hg Hb Hblock Hoff Hcd). auto. }
  destruct (message_grants rejects env message g w Hg Hb Hblock Hoff Hcd) as (_ & Hcfg & Hother).
  destruct (leveling_grant rejects env message g w Hg Hb Hblock Hoff Hcd) as (_ & _ & _ & Hroles & _).
  split; [exact Hcfg | split; [exact Hroles |]].
  intros gid uid Hne. apply Hother. apply Hne. reflexivity.
Qed.

(** ** The users table *)

(** The two statements on [users], read back.  [upsertUser] stores a new
    row whole, while an existing row takes the new xp and level and keeps
    its own [last_xp_ts]; [setLastXP] changes the timestamp of an existing
    row and leaves the table as it was when the key has no row; neither
    touches a row under another key. *)
Theorem users_statements_read_back (ts : Z) (g u : string) (row : UserRow) (d : Db) :
  Sql.getUser g u (Sql.upsertUser g u row d) =
    Some match Sql.getUser g u d with
         | Some old => {| xp := xp row; level := level row; last_xp_ts := last_xp_ts old |}
         | None => row
         end /\
  Sql.getUser g u (Sql.setLastXP ts g u d) =
    (fun r => {| xp := xp r; level := level r; last_xp_ts := ts |}) <$> Sql.getUser g u d /\
  (Sql.getUser g u d = None -> Sql.setLastXP ts g u d = d) /\
  (forall g' u', (g', u') <> (g, u) ->
     Sql.getUser g' u' (Sql.upsertUser g u row d) = Sql.getUser g' u' d /\
     Sql.getUser g' u' (Sql.setLastXP ts g u d) = Sql.getUser g' u' d).
Proof.
  unfold Sql.getUser, Sql.upsertUser, Sql.setLastXP. simpl.
  split; [apply lookup_insert_eq | split; [apply lookup_alter_eq | split]].
  - intros Hnone. destruct d as [cfg us]. simpl in *. f_equal.
    apply map_eq. intros k. destruct (decide (k = (g, u))) as [-> | Hne].
    + rewrite lookup_alter_eq, Hnone. reflexivity.
    + apply lookup_alter_ne. congruence.
  - intros g' u' Hne. split; [apply lookup_insert_ne | apply lookup_alter_ne]; congruence.
Qed.

(** ** Configuration commands, further *)

(** Commands run one after the other on one community. *)
Definition runCommands (rejects : Action -> bool) (gid : string)
    (cmds : list ConfigCommand) (w : World) : World :=
  fold_left (fun w cmd => snd (handleCommand rejects gid cmd w)) cmds w.

Lemma holds_values_survives (rejects : Action -> bool) (gid : string)
    (a cmd : ConfigCommand) (c : CfgRow) (w : World) :
  carries_values a -> target cmd <> target a ->
  Sql.getCfg gid (db w) = Some c -> holds_values_of a c ->
  exists c', Sql.getCfg gid (db (snd (handleCommand rejects gid cmd w))) = Some c' /\
             holds_values_of a c'.
Proof.
  intros Hvals Hdiff Hc Hholds. rewrite handleCommand_db, getCfg_upsertCfg, Hc.
  eexists. split; [reflexivity |].
  destruct a, cmd; simpl in *; try contradiction;
    repeat match goal with
           | H : _ /\ _ |- _ => destruct H
           end;
    repeat match goal with
           | H : _ c = Some _ |- _ => rewrite H
           end;
    rewrite ?or_null_nonempty by assumption; auto.
Qed.

(** A value set by a command is still in the community's row after any
    number of later commands, as long as none of them addresses the same
    setting (the value being a non-empty string where it is one). *)
Theorem config_value_survives (rejects : Action -> bool) (gid : string)
    (a : ConfigCommand) (later : list ConfigCommand) (w : World) :
  carries_values a ->
  Forall (fun cmd => target cmd <> target a) later ->
  exists c, Sql.getCfg gid (db (runCommands rejects gid (a :: later) w)) = Some c /\
            holds_values_of a c.
Proof.
  intros Hvals Hlater. unfold runCommands. simpl.
  assert (Hfirst : exists c, Sql.getCfg gid (db (snd (handleCommand rejects gid a w))) = Some c /\
                             holds_values_of a c).
  { rewrite handleCommand_db, getCfg_upsertCfg. eexists. split; [reflexivity |].
    destruct a; simpl; auto. }
  revert Hfirst. generalize (snd (handleCommand rejects gid a w)) as w1.
  induction Hlater as [| cmd rest Hcmd _ IH]; intros w1 (c & Hc & Hholds); simpl.
  - exists c. auto.
  - apply IH. apply (holds_values_survives rejects gid a cmd c w1); assumption.
Qed.

Lemma config_value_survives_witness :
  exists c,
    Sql.getCfg "g" (db (runCommands Sample.accept_all "g"
                          [SetAutorole "A"; SetLog "modlog"; ToggleLeveling false;
                           SetWelcome "general" "Hi {user}"; SetLog "general"]
                          Sample.blank)) = Some c /\
    autorole_id c = Some "A".
Proof.
  apply (config_value_survives Sample.accept_all "g" (SetAutorole "A")
           [SetLog "modlog"; ToggleLeveling false; SetWelcome "general" "Hi {user}";
            SetLog "general"] Sample.blank).
  - simpl. discriminate.
  - repeat constructor; simpl; discriminate.
Defined.

(** A configuration command writes the row of its own community and
    nothing else: the rows of other communities, the users table and the
    roles members hold are as before, whether or not the reply goes
    through. *)
Theorem handleCommand_frame (rejects : Action -> bool) (gid : string) (cmd : ConfigCommand)
    (w : World) :
  let w' := snd (handleCommand rejects gid cmd w) in
  users (db w') = users (db w) /\
  member_roles w' = member_roles w /\
  (forall gid', gid' <> gid -> Sql.getCfg gid' (db w') = Sql.getCfg gid' (db w)) /\
  writes_in (issued w w') = [UpsertCfg gid (merged cmd (Sql.getCfg gid (db w)))].
Proof.
  intros w'. subst w'. split; [| split; [| split]].
  - rewrite handleCommand_db. reflexivity.
  - destruct cmd; simpl;
      unfold handleSetWelcome, handleSetAutorole, handleToggleLeveling, handleSetLog,
        bind, run_getCfg, run_upsertCfg, await; cbn [fst snd];
      destruct (rejects _); reflexivity.
  - intros gid' Hne. rewrite handleCommand_db. unfold Sql.getCfg, Sql.upsertCfg. simpl.
    apply lookup_insert_ne. congruence.
  - destruct cmd; simpl;
      unfold handleSetWelcome, handleSetAutorole, handleToggleLeveling, handleSetLog,
        bind, run_getCfg, run_upsertCfg, await; cbn [fst snd];
      (erewrite issued_app;
       [| destruct (rejects _); simpl; rewrite <- ?app_assoc; reflexivity]);
      reflexivity.
Qed.

(** ** Commands and the leveling gate *)

(** Whether the leveling step is off once a command has run: a toggle
    decides it; any other command keeps what an existing row says and
    turns leveling on when it creates the row.  A message that then passes
    the automod stops at the configuration read when it is off, and earns
    XP (the cooldown having elapsed) when it is on. *)
Theorem message_after_command (rejects : Action -> bool) (env : Env) (message : Message)
    (g : Guild) (cmd : ConfigCommand) (w : World) :
  guild message = Some g ->
  bot (author message) = false ->
  blocksInvite env message = false ->
  let gid := guild_id g in
  let uid := user_id (author message) in
  let w1 := snd (handleCommand rejects gid cmd w) in
  let rec := recordOf gid uid w in
  let out := messageCreate rejects env message w1 in
  levelingOff (Sql.getCfg gid (db w1)) =
    match cmd with
    | ToggleLeveling enabled => negb enabled
    | _ => match Sql.getCfg gid (db w) with
           | Some c => levelingOff (Some c)
           | None => false
           end
    end /\
  (levelingOff (Sql.getCfg gid (db w1)) = true ->
     out = (Fulfilled tt, log_event (Ran (GetCfg gid)) w1)) /\
  (levelingOff (Sql.getCfg gid (db w1)) = false ->
     cooldownMs <= now_leveling env - last_xp_ts rec ->
     Sql.getUser gid uid (db (snd out)) = Some (granted env rec)).
Proof.
  intros Hg Hh Ha gid uid w1 rec out. split; [| split].
  - unfold w1. rewrite handleCommand_db, getCfg_upsertCfg.
    destruct cmd as [ch msg | r | [] | ch]; simpl; try reflexivity;
      destruct (Sql.getCfg gid (db w)); reflexivity.
  - intros Hoff. apply (leveling_off rejects env message g w1 Hg Hh Ha Hoff).
  - intros Hon Hcd.
    assert (Hrec : recordOf gid uid w1 = rec).
    { unfold recordOf, Sql.getUser, w1. rewrite handleCommand_db. reflexivity. }
    rewrite <- Hrec in *.
    apply (message_grants rejects env message g w1 Hg Hh Ha Hon Hcd).
Qed.

Lemma message_after_command_witness :
  Sql.getUser "g" "u"
    (db (snd (messageCreate Sample.accept_all (Sample.at_time 100000 5) (Sample.says "hello" 0)
                (snd (handleCommand Sample.accept_all "g" (SetLog "modlog") Sample.blank)))))
    = Some (granted (Sample.at_time 100000 5) zero_record).
Proof.
  destruct (message_after_command Sample.accept_all (Sample.at_time 100000 5)
              (Sample.says "hello" 0) Sample.town (SetLog "modlog") Sample.blank
              eq_refl eq_refl eq_refl) as (_ & _ & Hgrant).
  apply Hgrant; [reflexivity | vm_compute; discriminate].
Defined.

(** ** An empty welcome text *)

(** An empty welcome text is stored as the empty string; the next command
    on another setting carries it over with [|| null], which turns it into
    NULL while the welcome channel stays; before and after, the join
    handler falls back to the built-in template. *)
Theorem empty_welcome_text (rejects : Action -> bool) (gid channel_id : string)
    (next : ConfigCommand) (w : World) :
  channel_id <> "" ->
  target next <> Welcome ->
  let w1 := snd (handleCommand rejects gid (SetWelcome channel_id "") w) in
  let w2 := snd (handleCommand rejects gid next w1) in
  exists c1 c2,
    Sql.getCfg gid (db w1) = Some c1 /\ Sql.getCfg gid (db w2) = Some c2 /\
    welcome_message c1 = Some "" /\ welcome_message c2 = None /\
    welcome_channel_id c2 = Some channel_id /\
    forall template,
      Js.or_default (welcome_message c1) template = template /\
      Js.or_default (welcome_message c2) template = template.
Proof.
  intros Hch Hnext w1 w2. unfold w2, w1.
  rewrite !handleCommand_db, !getCfg_upsertCfg.
  eexists. eexists. split; [reflexivity | split; [reflexivity |]].
  destruct next; simpl in *; try contradiction;
    repeat split; simpl; rewrite ?or_null_nonempty by assumption; reflexivity.
Qed.

Lemma empty_welcome_text_witness :
  exists c1 c2,
    Sql.getCfg "g" (db (snd (handleCommand Sample.accept_all "g" (SetWelcome "general" "")
                                           Sample.blank))) = Some c1 /\
    Sql.getCfg "g" (db (snd (handleCommand Sample.accept_all "g" (SetAutorole "A")
                          (snd (handleCommand Sample.accept_all "g" (SetWelcome "general" "")
                                              Sample.blank))))) = Some c2 /\
    welcome_message c1 = Some "" /\ welcome_message c2 = None.
Proof.
  destruct (empty_welcome_text Sample.accept_all "g" "general" (SetAutorole "A") Sample.blank)
    as (c1 & c2 & H1 & H2 & H3 & H4 & _).
  - discriminate.
  - simpl. discriminate.
  - exists c1, c2. auto.
Defined.

(** ** The join handler, further *)

Lemma find_role_spec (g : Guild) (id : option string) (r : string) (e : bool) :
  find_role g id = Some (r, e) <-> id = Some r /\ r <> "" /\ roles_cache g !! r = Some e.
Proof.
  unfold find_role, Js.truthy. destruct id as [s |]; simpl.
  - destruct (String.eqb_spec s ""); simpl.
    + split; [discriminate | intros (Hs & Hne & _); congruence].
    + destruct (roles_cache g !! s) as [e' |] eqn:Hc; simpl.
      * split; [intros H; injection H as <- <-; auto
               | intros (Hs & _ & He); injection Hs as <-; congruence].
      * split; [discriminate | intros (Hs & _ & He); injection Hs as <-; congruence].
  - split; [discriminate | intros (Hs & _); discriminate].
Qed.

Lemma find_channel_spec (g : Guild) (id : option string) (c : string) (t : bool) :
  find_channel g id = Some (c, t) <-> id = Some c /\ c <> "" /\ channels_cache g !! c = Some t.
Proof.
  unfold find_channel, Js.truthy. destruct id as [s |]; simpl.
  - destruct (String.eqb_spec s ""); simpl.
    + split; [discriminate | intros (Hs & Hne & _); congruence].
    + destruct (channels_cache g !! s) as [t' |] eqn:Hc; simpl.
      * split; [intros H; injection H as <- <-; auto
               | intros (Hs & _ & He); injection Hs as <-; congruence].
      * split; [discriminate | intros (Hs & _ & He); injection Hs as <-; congruence].
  - split; [discriminate | intros (Hs & _); discriminate].
Qed.

(** The calls of the join handler, in order. *)
Lemma trace_guildMemberAdd (rejects : Action -> bool) (g : Guild) (who : Member) (w : World) :
  let cfg := Sql.getCfg (guild_id g) (db w) in
  let uid := user_id (user who) in
  issued w (snd (guildMemberAdd rejects g who w)) =
    [Ran (GetCfg (guild_id g))] ++
    match find_role g (cfg ≫= autorole_id) with
    | Some (r, true) => [Called (RolesAdd (guild_id g) uid [r])]
    | _ => []
    end ++
    match find_channel g (Js.or_else (cfg ≫= welcome_channel_id) (systemChannelId g)) with
    | Some (id, true) =>
        [Called (ChannelSend id
                   (WelcomeText (Js.or_default (cfg ≫= welcome_message)
                                               "Welcome {user} to {server}!")
                                uid (guild_name g)))]
    | _ => []
    end ++
    match find_channel g (cfg ≫= log_channel_id) with
    | Some (id, true) => [Called (ChannelSend id (MemberJoined (tag (user who))))]
    | _ => []
    end.
Proof.
  intros cfg uid. apply issued_app.
  unfold guildMemberAdd, bind, run_getCfg, send_log. cbn [fst snd].
  change (Sql.getCfg (guild_id g) (db w)) with cfg. fold uid.
  destruct (find_role g (cfg ≫= autorole_id)) as [[r []] |];
    destruct (find_channel g (Js.or_else _ _)) as [[wid []] |];
    destruct (find_channel g (cfg ≫= log_channel_id)) as [[lid []] |];
    unfold catch_ignore, floating, await, ret; cbn [fst snd];
    repeat (match goal with
            | |- context [rejects ?a] => destruct (rejects a)
            end; cbn [fst snd]);
    simpl; rewrite <- ?app_assoc; reflexivity.
Qed.

(** A failed role assignment or a failed welcome message stops nothing:
    whatever the platform rejects, the join handler completes, issues the
    same calls in the same order as when nothing fails, leaves the store
    as it was, and the only rejection it can leave without a handler is
    the one of the send to the log channel. *)
Theorem guildMemberAdd_contains_failures (rejects : Action -> bool) (g : Guild)
    (who : Member) (w : World) :
  let w' := snd (guildMemberAdd rejects g who w) in
  fst (guildMemberAdd rejects g who w) = Fulfilled tt /\
  issued w w' = issued w (snd (guildMemberAdd (fun _ => false) g who w)) /\
  db w' = db w /\
  forall a, a ∈ drop (length (unhandled w)) (unhandled w') ->
    rejects a = true /\
    exists id, a = ChannelSend id (MemberJoined (tag (user who))) /\
      find_channel g (Sql.getCfg (guild_id g) (db w) ≫= log_channel_id) = Some (id, true).
Proof.
  intros w'. subst w'. split; [apply guildMemberAdd_fulfils |].
  split; [rewrite !trace_guildMemberAdd; reflexivity |].
  split.
  { revert w. change (keeps_db (guildMemberAdd rejects g who)).
    unfold guildMemberAdd.
    apply keeps_db_bind; [apply keeps_db_getCfg | intros cfg].
    apply keeps_db_bind;
      [destruct (find_role g _) as [[r []] |]; auto with keeps_db | intros _].
    apply keeps_db_bind;
      [destruct (find_channel g _) as [[c []] |]; auto with keeps_db | intros _].
    apply keeps_db_send_log. }
  intros a. rewrite guildMemberAdd_unhandled, drop_app_length.
  destruct (find_channel g _) as [[id []] |]; simpl; try (intros H; apply elem_of_nil in H; tauto).
  destruct (rejects (ChannelSend id _)) eqn:Hrej; [| intros H; apply elem_of_nil in H; tauto].
  intros H. apply list_elem_of_singleton in H. subst a. split; [exact Hrej |].
  exists id. auto.
Qed.

(** The join handler asks for a role to be added only when the community's
    row names a non-empty autorole that is in the role cache and editable,
    and then it asks for exactly that role for the joining member; when the
    platform accepts the call, the member holds the role afterwards. *)
Theorem autorole_only_when_editable (rejects : Action -> bool) (g : Guild) (who : Member)
    (w : World) :
  let cfg := Sql.getCfg (guild_id g) (db w) in
  let uid := user_id (user who) in
  let w' := snd (guildMemberAdd rejects g who w) in
  (forall g' u' rs,
     Called (RolesAdd g' u' rs) ∈ issued w w' <->
     exists r, cfg ≫= autorole_id = Some r /\ r <> "" /\ roles_cache g !! r = Some true /\
               g' = guild_id g /\ u' = uid /\ rs = [r]) /\
  (forall g' u' rs, Called (RolesRemove g' u' rs) ∉ issued w w') /\
  (forall r, cfg ≫= autorole_id = Some r -> r <> "" -> roles_cache g !! r = Some true ->
     rejects (RolesAdd (guild_id g) uid [r]) = false ->
     rolesOf (guild_id g) uid w' = rolesOf (guild_id g) uid w ∪ {[ r ]}).
Proof.
  intros cfg uid w'. split; [| split].
  - intros g' u' rs. unfold w'. rewrite trace_guildMemberAdd. fold cfg uid.
    destruct (find_role g (cfg ≫= autorole_id)) as [[r e] |] eqn:Hrole.
    + apply find_role_spec in Hrole as (Hid & Hne & Hcache).
      destruct e; destruct (find_channel g (Js.or_else _ _)) as [[wid []] |];
        destruct (find_channel g (cfg ≫= log_channel_id)) as [[lid []] |];
        simpl; rewrite ?elem_of_cons, elem_of_nil; split;
        try (intros (r' & Hr' & _ & Hc' & _); congruence);
        try (intros (r' & Hr' & _ & Hc' & -> & -> & ->);
             assert (r' = r) as -> by congruence; auto);
        intros Hin; repeat destruct Hin as [Hin | Hin]; try discriminate Hin;
        try contradiction; injection Hin as -> -> ->; exists r; auto 10.
    + destruct (find_channel g (Js.or_else _ _)) as [[wid []] |];
        destruct (find_channel g (cfg ≫= log_channel_id)) as [[lid []] |];
        simpl; rewrite ?elem_of_cons, elem_of_nil; split;
        try (intros Hin; repeat destruct Hin as [Hin | Hin]; try discriminate Hin;
             contradiction);
        intros (r & Hid & Hne & Hcache & _);
        assert (find_role g (cfg ≫= autorole_id) = Some (r, true)) as Hsome
          by (apply find_role_spec; auto);
        congruence.
  - intros g' u' rs. unfold w'. rewrite trace_guildMemberAdd.
    destruct (find_role g _) as [[r []] |];
      destruct (find_channel g (Js.or_else _ _)) as [[wid []] |];
      destruct (find_channel g (_ ≫= log_channel_id)) as [[lid []] |];
      simpl; absent_from_list.
  - intros r Hid Hne Hcache Hacc. unfold w'.
    assert (Hrole : find_role g (cfg ≫= autorole_id) = Some (r, true))
      by (apply find_role_spec; auto).
    unfold guildMemberAdd, bind, run_getCfg, send_log. cbn [fst snd].
    change (Sql.getCfg (guild_id g) (db w)) with cfg. fold uid. rewrite Hrole.
    unfold catch_ignore, await at 1. rewrite Hacc. cbn [fst snd effect].
    destruct (find_channel g (Js.or_else _ _)) as [[wid []] |];
      destruct (find_channel g (cfg ≫= log_channel_id)) as [[lid []] |];
      unfold catch_ignore, floating, await, ret; cbn [fst snd];
      repeat (match goal with
              | |- context [rejects ?a] => destruct (rejects a)
              end; cbn [fst snd]);
      unfold rolesOf; simpl; rewrite lookup_insert_eq; simpl;
      rewrite (right_id_L ∅ (∪)); reflexivity.
Qed.

Lemma welcome_target_spec (g : Guild) (a b : option string) (ch : string) (t : bool) :
  find_channel g (Js.or_else a b) = Some (ch, t) <->
  ch <> "" /\ channels_cache g !! ch = Some t /\
  (a = Some ch \/ (Js.truthy a = false /\ b = Some ch)).
Proof.
  rewrite find_channel_spec. unfold Js.or_else.
  destruct (Js.truthy a) eqn:Ha.
  - split; [intros (H1 & H2 & H3); auto |].
    intros (H1 & H2 & [H3 | [H3 _]]); [auto | discriminate].
  - split; [intros (H1 & H2 & H3); auto |].
    intros (H1 & H2 & [H3 | [_ H3]]); [| auto].
    subst a. unfold Js.truthy in Ha.
    destruct (String.eqb_spec ch ""); [contradiction | discriminate].
Qed.

(** Where the welcome goes.  The join handler sends a welcome text to
    channel [ch] exactly when [ch] is a text channel of the channel cache
    and is either the configured welcome channel or, no welcome channel
    being configured, the system channel of the guild; a configured channel
    that is missing from the cache or not text-based gets no fallback.  The
    text is built from the configured template, or from the built-in one
    when none is configured, for the joining member and the guild's name. *)
Theorem welcome_channel_choice (rejects : Action -> bool) (g : Guild) (who : Member)
    (w : World) :
  let cfg := Sql.getCfg (guild_id g) (db w) in
  let w' := snd (guildMemberAdd rejects g who w) in
  forall ch template member_id name,
    Called (ChannelSend ch (WelcomeText template member_id name)) ∈ issued w w' <->
    (ch <> "" /\ channels_cache g !! ch = Some true /\
     (cfg ≫= welcome_channel_id = Some ch \/
      (Js.truthy (cfg ≫= welcome_channel_id) = false /\ systemChannelId g = Some ch))) /\
    template = Js.or_default (cfg ≫= welcome_message) "Welcome {user} to {server}!" /\
    member_id = user_id (user who) /\ name = guild_name g.
Proof.
  intros cfg w' ch template member_id name. unfold w'.
  rewrite trace_guildMemberAdd, <- welcome_target_spec. fold cfg.
  destruct (find_channel g (Js.or_else _ _)) as [[wid wt] |];
    [destruct wt |];
    destruct (find_role g _) as [[r []] |];
    destruct (find_channel g (cfg ≫= log_channel_id)) as [[lid []] |];
    simpl; rewrite ?elem_of_cons, elem_of_nil; split;
    try (intros [H _]; discriminate H);
    try (intros Hin; repeat destruct Hin as [Hin | Hin]; try discriminate Hin;
         try contradiction; injection Hin as -> -> -> ->; auto);
    intros (Hch & -> & -> & ->); injection Hch as ->; auto 10.
Qed.

(** ** The role menu, further *)

(** The run of the reconciler, call by call. *)
Lemma roleMenu_run (rejects : Action -> bool) (i : SelectMenu) (w : World) :
  String.prefix "role_menu:" (customId i) = true ->
  let gid := guild_id (menu_guild i) in
  let uid := user_id (menu_user i) in
  let held := rolesOf gid uid w in
  let fetch := MembersFetch gid uid in
  let remove := RolesRemove gid uid (toRemoveOf i held) in
  let add := RolesAdd gid uid (values i) in
  let reply := InteractionReply RolesUpdated in
  let w1 := log_event (Called fetch) w in
  let w2 := with_roles gid uid (held ∖ toRemoveOf i held) (log_event (Called remove) w1) in
  let w3 := with_roles gid uid (held ∖ toRemoveOf i held ∪ list_to_set (values i))
                       (log_event (Called add) w2) in
  let w4 := log_event (Called reply) w3 in
  roleMenu rejects i w =
    if rejects fetch then (Rejected fetch, w1)
    else if rejects remove then (Rejected remove, log_event (Called remove) w1)
    else if rejects add then (Rejected add, log_event (Called add) w2)
    else if rejects reply then (Rejected reply, w4)
    else (Fulfilled tt, w4).
Proof.
  intros Hns gid uid held fetch remove add reply w1 w2 w3 w4.
  unfold roleMenu. rewrite Hns. cbn [negb].
  unfold bind, fetchMember. fold gid uid fetch.
  destruct (rejects fetch); [reflexivity |].
  change (filter _ (rolesOf gid uid (log_event (Called fetch) w))) with (toRemoveOf i held).
  fold remove. unfold await at 1.
  destruct (rejects remove); [reflexivity |].
  fold add. unfold await at 1.
  destruct (rejects add); [reflexivity |].
  fold reply. unfold await.
  destruct (rejects reply); unfold w4, w3, w2, add, remove; cbn [effect];
    rewrite !rolesOf_log_event, rolesOf_with_roles; reflexivity.
Qed.

(** A selection whose [customId] is outside the role-menu namespace is
    ignored: the world is left as it was. *)
Theorem select_outside_namespace (rejects : Action -> bool) (i : SelectMenu) (w : World) :
  String.prefix "role_menu:" (customId i) = false ->
  onSelectMenu rejects i w = (Fulfilled tt, w).
Proof.
  intros Hns. unfold onSelectMenu, try_catch, roleMenu. rewrite Hns. reflexivity.
Qed.

Lemma select_outside_namespace_witness :
  let i := {| customId := "color_menu:1"; values := ["A"]; component_options := ["A"];
              menu_user := Sample.alice; menu_guild := Sample.town |} in
  onSelectMenu Sample.accept_all i (Sample.holding ∅) = (Fulfilled tt, Sample.holding ∅).
Proof.
  intros i. apply (select_outside_namespace Sample.accept_all i (Sample.holding ∅)).
  reflexivity.
Defined.

(** What a rejected call leaves behind.  The select handler never raises
    and never touches the store.  When the fetch or the removal is
    rejected the member's roles are as before; when the addition is
    rejected the removal has already taken effect and stays; when only the
    final reply is rejected both have taken effect.  In each of these
    cases the handler goes on to send the failure notice. *)
Theorem role_menu_failures (rejects : Action -> bool) (i : SelectMenu) (w : World) :
  String.prefix "role_menu:" (customId i) = true ->
  let gid := guild_id (menu_guild i) in
  let uid := user_id (menu_user i) in
  let held := rolesOf gid uid w in
  let fetch := MembersFetch gid uid in
  let remove := RolesRemove gid uid (toRemoveOf i held) in
  let add := RolesAdd gid uid (values i) in
  let reply := InteractionReply RolesUpdated in
  let sorry := InteractionReply SomethingWentWrong in
  let w' := snd (onSelectMenu rejects i w) in
  let held' := rolesOf gid uid w' in
  fst (onSelectMenu rejects i w) = Fulfilled tt /\
  db w' = db w /\
  (rejects fetch = true ->
     held' = held /\ issued w w' = [Called fetch; Called sorry]) /\
  (rejects fetch = false -> rejects remove = true ->
     held' = held /\ issued w w' = [Called fetch; Called remove; Called sorry]) /\
  (rejects fetch = false -> rejects remove = false -> rejects add = true ->
     held' = held ∖ toRemoveOf i held /\
     issued w w' = [Called fetch; Called remove; Called add; Called sorry]) /\
  (rejects fetch = false -> rejects remove = false -> rejects add = false ->
   rejects reply = true ->
     held' = held ∖ toRemoveOf i held ∪ list_to_set (values i) /\
     issued w w' = [Called fetch; Called remove; Called add; Called reply; Called sorry]).
Proof.
  intros Hns gid uid held fetch remove add reply sorry w' held'.
  unfold held', w', onSelectMenu, try_catch.
  rewrite (roleMenu_run rejects i w Hns).
  fold gid uid held fetch remove add reply sorry.
  unfold catch_ignore, await.
  assert (Hheld : forall e, rolesOf gid uid (log_event e w) = held) by reflexivity.
  destruct (rejects fetch), (rejects remove), (rejects add), (rejects reply),
    (rejects sorry); cbn [fst snd effect];
    repeat split; try discriminate; try reflexivity; intros;
    try discriminate;
    try (apply issued_app; simpl; rewrite <- ?app_assoc; reflexivity);
    unfold rolesOf; simpl; rewrite ?lookup_insert_eq; reflexivity.
Qed.

Lemma role_menu_failures_witness :
  let i := Sample.picks ["A"; "D"] ["D"] in
  let w := Sample.holding {[ "A"; "Z" ]} in
  rolesOf "g" "u" (snd (onSelectMenu Sample.refuse_unmanageable i w)) = {[ "Z" ]}.
Proof.
  intros i w.
  destruct (role_menu_failures Sample.refuse_unmanageable i w eq_refl)
    as (_ & _ & _ & _ & Hadd & _).
  assert (Hroles : rolesOf "g" "u" (snd (onSelectMenu Sample.refuse_unmanageable i w))
                   = rolesOf "g" "u" w
                     ∖ toRemoveOf i (rolesOf "g" "u" w))
    by (apply Hadd; reflexivity).
  etransitivity; [exact Hroles |]. vm_compute. reflexivity.
Defined.

Lemma elem_of_toRemoveOf (i : SelectMenu) (held : gset string) (r : string) :
  r ∈ toRemoveOf i held <->
  r ∈ held /\ r ∈ component_options i /\ roles_cache (menu_guild i) !! r = Some true.
Proof.
  unfold toRemoveOf, manageableOf. rewrite elem_of_filter, list_elem_of_filter. tauto.
Qed.




(** Making the same selection again changes nothing: when both runs go
    through, the member's roles after the second are those after the
    first. *)
Theorem role_menu_idempotent (rejects : Action -> bool) (i : SelectMenu) (w : World) :
  String.prefix "role_menu:" (customId i) = true ->
  let gid := guild_id (menu_guild i) in
  let uid := user_id (menu_user i) in
  let w1 := snd (onSelectMenu rejects i w) in
  let w2 := snd (onSelectMenu rejects i w1) in
  fst (roleMenu rejects i w) = Fulfilled tt ->
  fst (roleMenu rejects i w1) = Fulfilled tt ->
  rolesOf gid uid w2 = rolesOf gid uid w1.
Proof.
  intros Hns gid uid w1 w2 Hok1 Hok2.
  destruct (roleMenu_fulfilled rejects i w Hns Hok1) as (Hout1 & _ & Hroles1).
  destruct (roleMenu_fulfilled rejects i w1 Hns Hok2) as (Hout2 & _ & Hroles2).
  fold gid uid in Hroles1, Hroles2.
  assert (Hw1 : w1 = snd (roleMenu rejects i w)) by (unfold w1; rewrite Hout1; reflexivity).
  assert (Hw2 : w2 = snd (roleMenu rejects i w1)) by (unfold w2; rewrite Hout2; reflexivity).
  rewrite Hw2, Hroles2. rewrite <- Hw1 in Hroles1.
  apply set_eq. intros r.
  rewrite elem_of_union, elem_of_difference, elem_of_toRemoveOf, elem_of_list_to_set.
  rewrite Hroles1.
  rewrite elem_of_union, elem_of_difference, elem_of_toRemoveOf, elem_of_list_to_set.
  tauto.
Qed.

Lemma role_menu_idempotent_witness :
  let i := Sample.picks ["A"; "B"; "D"] ["B"] in
  let w1 := snd (onSelectMenu Sample.accept_all i (Sample.holding {[ "A"; "D"; "Z" ]})) in
  rolesOf "g" "u" (snd (onSelectMenu Sample.accept_all i w1)) = rolesOf "g" "u" w1.
Proof.
  intros i.
  apply (role_menu_idempotent Sample.accept_all i (Sample.holding {[ "A"; "D"; "Z" ]}));
    reflexivity.
Defined.

(** * The rest of the interaction handling *)

(** ** interactionCreate *)

(** The interactions whose handlers are modelled above: a chat-input
    command that is one of the four configuration commands, and a string
    select menu.  [OtherInteraction] stands for an interaction that is
    neither a chat-input command nor a string select menu, and for a
    chat-input command whose name is not in the dispatch table. *)
Inductive Interaction :=
| ConfigInteraction (guildId : string) (cmd : ConfigCommand)
| SelectInteraction (i : SelectMenu)
| OtherInteraction.

(** [client.on('interactionCreate', ...)].  A command is dispatched with
    [return handleX(interaction)]: the promise is returned, not awaited,
    so it settles after the [try] block has been left and its rejection is
    the rejection of the listener.  The select-menu branch is awaited
    inside the [try] and falls under its [catch]. *)
Definition interactionCreate (rejects : Action -> bool) (x : Interaction) : Async unit :=
  match x with
  | OtherInteraction => ret tt
  | ConfigInteraction guildId cmd => handleCommand rejects guildId cmd
  | SelectInteraction i => onSelectMenu rejects i
  end.

(** The reply with which a configuration command acknowledges. *)
Definition acknowledgement (cmd : ConfigCommand) : Action :=
  InteractionReply
    match cmd with
    | SetWelcome channel_id message => WelcomeSet channel_id message
    | SetAutorole role_id => AutoroleSet role_id
    | ToggleLeveling enabled => LevelingToggled enabled
    | SetLog channel_id => LogChannelSet channel_id
    end.

(** How many times a command's handler reads the row before writing. *)
Definition reads_before_write (cmd : ConfigCommand) : nat :=
  match cmd with
  | SetWelcome _ _ => 3
  | _ => 4
  end.

Lemma handleCommand_outcome (rejects : Action -> bool) (gid : string) (cmd : ConfigCommand)
    (w : World) :
  fst (handleCommand rejects gid cmd w) =
    (if rejects (acknowledgement cmd) then Rejected (acknowledgement cmd) else Fulfilled tt) /\
  issued w (snd (handleCommand rejects gid cmd w)) =
    replicate (reads_before_write cmd) (Ran (GetCfg gid)) ++
    [Ran (UpsertCfg gid (merged cmd (Sql.getCfg gid (db w))));
     Called (acknowledgement cmd)].
Proof.
  destruct cmd; simpl;
    unfold handleSetWelcome, handleSetAutorole, handleToggleLeveling, handleSetLog,
      bind, run_getCfg, run_upsertCfg, await; cbn [fst snd];
    (split; [destruct (rejects _); reflexivity |]);
    apply issued_app; destruct (rejects _); simpl; rewrite <- ?app_assoc; reflexivity.
Qed.

(** How failures leave the interaction listener.  When the platform
    rejects the acknowledgement of a configuration command, the listener
    itself is rejected: the row has been written, the rejected reply is the
    last call, and no failure notice follows.  A select-menu interaction
    never makes the listener reject, and any other interaction is ignored. *)
Theorem interactionCreate_failures (rejects : Action -> bool) (w : World) :
  (forall gid cmd,
     rejects (acknowledgement cmd) = true ->
     let out := interactionCreate rejects (ConfigInteraction gid cmd) w in
     fst out = Rejected (acknowledgement cmd) /\
     Sql.getCfg gid (db (snd out)) = Some (merged cmd (Sql.getCfg gid (db w))) /\
     last (issued w (snd out)) = Some (Called (acknowledgement cmd)) /\
     Called (InteractionReply SomethingWentWrong) ∉ issued w (snd out)) /\
  (forall i, fst (interactionCreate rejects (SelectInteraction i) w) = Fulfilled tt) /\
  interactionCreate rejects OtherInteraction w = (Fulfilled tt, w).
Proof.
  split; [| split; [| reflexivity]].
  - intros gid cmd Hrej out. subst out. simpl.
    destruct (handleCommand_outcome rejects gid cmd w) as (Hfst & Htr).
    rewrite Hrej in Hfst. split; [exact Hfst |].
    split; [rewrite handleCommand_db; apply getCfg_upsertCfg |].
    rewrite Htr. split.
    + rewrite last_app. reflexivity.
    + rewrite elem_of_app, !elem_of_cons, elem_of_nil.
      intros [Hin | [H | [H | []]]].
      * apply elem_of_replicate in Hin as [Hin _]. discriminate Hin.
      * discriminate H.
      * destruct cmd; discriminate H.
  - intros i. simpl. unfold onSelectMenu, try_catch, catch_ignore.
    destruct (roleMenu rejects i w) as [[[] | c] w1]; [reflexivity |].
    destruct (await rejects _ w1) as [[] ?]; reflexivity.
Qed.

(** ** /rolemenu *)

From stdpp Require Import pretty sorting.

Local Open Scope string_scope.
Local Open Scope list_scope.
Local Open Scope Z_scope.

(** The options of a [/rolemenu] command: the title and the ids of the
    roles given for [role1] .. [role5] ([None] for an option left out). *)
Record RoleMenuRequest := {
  title : string;
  role1 : option string;
  role2 : option string;
  role3 : option string;
  role4 : option string;
  role5 : option string
}.

(** The select menu the handler builds. *)
Record SelectMenuBuilder := {
  built_customId : string;
  built_placeholder : string;
  built_minValues : nat;
  built_maxValues : nat;
  built_options : list (string * string)    (* label, value *)
}.

(** What the handler replies with. *)
Inductive RoleMenuReply :=
| MustIncludeRole                                         (* ephemeral notice *)
| MenuPosted (embed_title : string) (menu : SelectMenuBuilder).

(** [['role1', ..., 'role5'].map(n => interaction.options.getRole(n)?.id)
     .filter(Boolean)] *)
Definition roleIdsOf (req : RoleMenuRequest) : list string :=
  omap (fun v => if Js.truthy v then v else None)
       [role1 req; role2 req; role3 req; role4 req; role5 req].

(** [async function handleRoleMenu(interaction)], up to the value passed
    to [interaction.reply]; [now] is [Date.now()] and [names] gives the
    name of each role of the guild's role cache. *)
Definition handleRoleMenu (now : Z) (names : gmap string string) (req : RoleMenuRequest)
    : RoleMenuReply :=
  let roleIds := roleIdsOf req in
  if bool_decide (length roleIds = 0%nat) then MustIncludeRole else
  MenuPosted (title req)
    {| built_customId := "role_menu:" +:+ pretty now;
       built_placeholder := "Pick your roles";
       built_minValues := 0;
       built_maxValues := length roleIds;
       built_options := map (fun rid => (Js.or_default (names !! rid) rid, rid)) roleIds |}.

(** The interaction the platform delivers when member [who] of guild [g]
    picks [picked] in a posted menu: it carries the menu's [customId] and
    the menu's options. *)
Definition selectionIn (menu : SelectMenuBuilder) (picked : list string) (who : User)
    (g : Guild) : SelectMenu :=
  {| customId := built_customId menu; values := picked;
     component_options := map snd (built_options menu);
     menu_user := who; menu_guild := g |}.

Lemma prefix_append (s t : string) : String.prefix s (s +:+ t) = true.
Proof.
  induction s as [| c s IH]; simpl; [destruct t; reflexivity |].
  destruct (Ascii.ascii_dec c c); [exact IH | contradiction].
Qed.

Lemma roleIdsOf_spec (req : RoleMenuRequest) (rid : string) :
  rid ∈ roleIdsOf req <->
  rid <> "" /\ Some rid ∈ [role1 req; role2 req; role3 req; role4 req; role5 req].
Proof.
  unfold roleIdsOf. rewrite list_elem_of_omap. split.
  - intros (v & Hin & Hv). unfold Js.truthy in Hv. destruct v as [s |]; [| discriminate].
    destruct (String.eqb_spec s ""); simpl in Hv; [discriminate |].
    injection Hv as ->. auto.
  - intros [Hne Hin]. exists (Some rid). split; [exact Hin |].
    unfold Js.truthy. destruct (String.eqb_spec rid ""); [contradiction | reflexivity].
Qed.

(** What [/rolemenu] posts and how it comes back.  The handler refuses
    exactly when none of the five options carries a non-empty role id.
    Otherwise the menu offers the non-empty ids given, and no other value,
    between one and five of them, lets the member pick from none up to all
    of them, and every selection made in it falls in the namespace of the
    select handler, which then takes the menu's options as its candidate
    roles and starts by fetching the member. *)
Theorem rolemenu_posts_what_select_handles (now : Z) (names : gmap string string)
    (req : RoleMenuRequest) :
  (handleRoleMenu now names req = MustIncludeRole <->
   forall rid, Some rid ∈ [role1 req; role2 req; role3 req; role4 req; role5 req] ->
               rid = "") /\
  forall embed_title menu,
    handleRoleMenu now names req = MenuPosted embed_title menu ->
    embed_title = title req /\
    map snd (built_options menu) = roleIdsOf req /\
    (forall rid, rid ∈ map snd (built_options menu) <->
       rid <> "" /\ Some rid ∈ [role1 req; role2 req; role3 req; role4 req; role5 req]) /\
    (1 <= length (built_options menu) <= 5)%nat /\
    built_minValues menu = 0%nat /\
    built_maxValues menu = length (built_options menu) /\
    forall rejects picked who g w,
      let i := selectionIn menu picked who g in
      String.prefix "role_menu:" (customId i) = true /\
      component_options i = roleIdsOf req /\
      head (issued w (snd (onSelectMenu rejects i w)))
        = Some (Called (MembersFetch (guild_id g) (user_id who))).
Proof.
  unfold handleRoleMenu. split.
  - case_bool_decide as Hlen; split; try discriminate; try reflexivity.
    + intros _ rid Hin. destruct (String.eqb_spec rid ""); [assumption |].
      assert (Hmem : rid ∈ roleIdsOf req) by (apply roleIdsOf_spec; auto).
      destruct (roleIdsOf req); [apply elem_of_nil in Hmem; contradiction | discriminate Hlen].
    + intros Hall. exfalso. apply Hlen.
      destruct (roleIdsOf req) as [| rid rest] eqn:Hids; [reflexivity |].
      assert (Hmem : rid ∈ roleIdsOf req) by (rewrite Hids; apply elem_of_cons; auto).
      apply roleIdsOf_spec in Hmem as [Hne Hin]. apply Hall in Hin. contradiction.
  - intros embed_title menu. case_bool_decide as Hlen; [discriminate |].
    intros Hposted. injection Hposted as <- <-.
    cbn [built_options built_minValues built_maxValues].
    assert (Hvalues : map snd (map (fun rid => (Js.or_default (names !! rid) rid, rid))
                                   (roleIdsOf req)) = roleIdsOf req).
    { rewrite map_map. simpl. apply map_id. }
    rewrite Hvalues, !length_map.
    split; [reflexivity |]. split; [reflexivity |].
    split; [apply roleIdsOf_spec |].
    split.
    { split; [destruct (roleIdsOf req); [contradiction | simpl; lia] |].
      unfold roleIdsOf. simpl.
      repeat match goal with
             | |- context [Js.truthy ?v] => destruct (Js.truthy v)
             | |- context [match ?v with Some _ => _ | None => _ end] => destruct v
             end; simpl; lia. }
    split; [reflexivity |]. split; [reflexivity |].
    intros rejects picked who g w. set (i := selectionIn _ picked who g).
    assert (Hns : String.prefix "role_menu:" (customId i) = true) by apply prefix_append.
    split; [exact Hns |]. split; [exact Hvalues |].
    change (guild_id g) with (guild_id (menu_guild i)).
    change (user_id who) with (user_id (menu_user i)).
    unfold onSelectMenu, try_catch. rewrite (roleMenu_run rejects i w Hns).
    unfold catch_ignore, await.
    repeat (match goal with
            | |- context [if rejects ?a then _ else _] => destruct (rejects a)
            end; cbn [fst snd]);
      (erewrite issued_app; [| simpl; rewrite <- ?app_assoc; reflexivity]); reflexivity.
Qed.

(** ** /rank *)

(** The figures of the rank embed. *)
Record RankCard := {
  card_user : string;
  card_level : Z;
  card_xp : Z;
  card_next : Z
}.

(** [async function handleRank(interaction)], up to the embed passed to
    [interaction.reply]: [option_user] is the id of the [user] option when
    given, [invoker] the id of [interaction.user]. *)
Definition handleRank (guildId : string) (option_user : option string) (invoker : string)
    : Async RankCard :=
  let uid := default invoker option_user in
  (found <- run_getUser guildId uid ;
   let rec := default zero_record found in
   let next := xpForNext (level rec) in
   ret {| card_user := uid; card_level := level rec; card_xp := xp rec; card_next := next |})%async.

(** [/rank] only reads: it runs the one lookup and leaves the world as it
    was otherwise.  It shows the member named by the option, else the
    invoker; a member without a record is shown at level 0 with 0 XP of
    100; and right after a message of that member earned XP (on a draw
    within range, from a record with non-negative xp) it shows the level
    and xp just stored, with the xp below the figure shown as needed for
    the next level. *)
Theorem rank_shows_the_stored_record (rejects : Action -> bool) (env : Env)
    (message : Message) (g : Guild) (option_user : option string) (invoker : string)
    (w : World) :
  let gid := guild_id g in
  let uid := default invoker option_user in
  let out := handleRank gid option_user invoker w in
  (exists card, fst out = Fulfilled card /\
     card_user card = uid /\
     card_level card = level (recordOf gid uid w) /\
     card_xp card = xp (recordOf gid uid w) /\
     card_next card = xpForNext (level (recordOf gid uid w))) /\
  snd out = log_event (Ran (GetUser gid uid)) w /\
  (Sql.getUser gid uid (db w) = None ->
   fst out = Fulfilled {| card_user := uid; card_level := 0; card_xp := 0; card_next := 100 |}) /\
  (guild message = Some g -> bot (author message) = false ->
   blocksInvite env message = false ->
   levelingOff (Sql.getCfg gid (db w)) = false ->
   uid = user_id (author message) ->
   cooldownMs <= now_leveling env - last_xp_ts (recordOf gid uid w) ->
   0 <= xp (recordOf gid uid w) -> 0 <= draw env <= 10 ->
   exists card,
     fst (handleRank gid option_user invoker (snd (messageCreate rejects env message w)))
       = Fulfilled card /\
     card_level card = level (granted env (recordOf gid uid w)) /\
     card_xp card = xp (granted env (recordOf gid uid w)) /\
     0 <= card_xp card < card_next card).
Proof.
  intros gid uid out. split; [| split; [| split]].
  - eexists. split; [reflexivity |]. auto.
  - reflexivity.
  - intros Hnone. unfold out, handleRank, bind, run_getUser. fold uid. simpl.
    rewrite Hnone. reflexivity.
  - intros Hg Hh Ha Hon Huid Hcd Hxp Hdraw.
    destruct (message_grants rejects env message g w Hg Hh Ha Hon) as (Hrec & _).
    { rewrite <- Huid. exact Hcd. }
    rewrite <- Huid in Hrec. fold gid in Hrec.
    eexists. split; [reflexivity |]. simpl. fold uid. rewrite Hrec. simpl.
    split; [reflexivity |]. split; [reflexivity |].
    apply (granted_invariant env (recordOf gid uid w)); [exact Hxp | lia].
Qed.

(** ** /leaderboard *)

(** A row of [SELECT user_id, xp, level FROM users ...]. *)
Record BoardRow := {
  row_user : string;
  row_xp : Z;
  row_level : Z
}.

(** [ORDER BY level DESC, xp DESC]: row [a] may stand before row [b]. *)
Definition outranks (a b : BoardRow) : Prop :=
  row_level b < row_level a \/ (row_level a = row_level b /\ row_xp b <= row_xp a).

#[local] Instance outranks_dec (a b : BoardRow) : Decision (outranks a b).
Proof. unfold outranks. apply _. Defined.

#[local] Instance outranks_total : Total outranks.
Proof. intros a b. unfold outranks. lia. Qed.

#[local] Instance outranks_trans : Transitive outranks.
Proof. intros a b c. unfold outranks. lia. Qed.

(** [... FROM users WHERE guild_id = ?] *)
Definition guildRows (guild_id : string) (d : Db) : list BoardRow :=
  omap (fun kv : string * string * UserRow =>
          if decide (kv.1.1 = guild_id)
          then Some {| row_user := kv.1.2; row_xp := xp kv.2; row_level := level kv.2 |}
          else None)
       (map_to_list (users d)).

(** [topUsers]: the guild's rows ordered by level, then xp, both
    descending, cut at ten.  SQL leaves the order among rows that tie on
    both columns open; here they stand as the sort leaves them, and
    nothing below depends on it. *)
Definition topUsers (guild_id : string) (d : Db) : list BoardRow :=
  take 10 (merge_sort outranks (guildRows guild_id d)).

(** A line of the leaderboard. *)
Record BoardLine := {
  place : nat;
  shown_name : string;
  shown_level : Z;
  shown_xp : Z
}.

Inductive LeaderboardReply :=
| NoDataYet
| Board (lines : list BoardLine).

(** [async function handleLeaderboard(interaction)], up to the value
    passed to [interaction.reply].  [usernames] stands for
    [client.users.fetch(id).catch(() => null)] followed by [?.username]:
    [None] when the fetch fails. *)
Definition handleLeaderboard (usernames : string -> option string) (guildId : string)
    (d : Db) : LeaderboardReply :=
  let rows := topUsers guildId d in
  if bool_decide (length rows = 0%nat) then NoDataYet else
  Board (imap (fun i r =>
                 {| place := S i;
                    shown_name := Js.or_default (usernames (row_user r)) (row_user r);
                    shown_level := row_level r;
                    shown_xp := row_xp r |})
              rows).

Lemma elem_of_guildRows (gid : string) (d : Db) (r : BoardRow) :
  r ∈ guildRows gid d <->
  exists rec, users d !! (gid, row_user r) = Some rec /\
              row_xp r = xp rec /\ row_level r = level rec.
Proof.
  unfold guildRows. rewrite list_elem_of_omap. split.
  - intros ([[g u] rec] & Hin & Hr). simpl in Hr.
    destruct (decide (g = gid)) as [-> |]; [| discriminate].
    injection Hr as <-. apply elem_of_map_to_list in Hin. exists rec. auto.
  - intros (rec & Hrec & Hx & Hl). exists ((gid, row_user r), rec). split.
    + apply elem_of_map_to_list. exact Hrec.
    + simpl. destruct (decide (gid = gid)); [| contradiction].
      destruct r. simpl in *. subst. reflexivity.
Qed.

Lemma NoDup_guildRows (gid : string) (d : Db) : NoDup (map row_user (guildRows gid d)).
Proof.
  unfold guildRows.
  pose proof (NoDup_fst_map_to_list (users d)) as Hnd.
  induction (map_to_list (users d)) as [| [[g u] rec] l IH]; simpl; [constructor |].
  apply NoDup_cons in Hnd as [Hnotin Hnd]. specialize (IH Hnd).
  destruct (decide (g = gid)) as [-> |]; simpl; [| exact IH].
  apply NoDup_cons. split; [| exact IH].
  intros Hin. apply Hnotin.
  apply list_elem_of_fmap in Hin as (r & Hu & Hr).
  apply list_elem_of_omap in Hr as ([[g' u'] rec'] & Hin' & Hr'). simpl in Hr'.
  destruct (decide (g' = gid)) as [-> |]; [| discriminate].
  injection Hr' as <-. simpl in Hu. subst u'.
  apply list_elem_of_fmap. exists ((gid, u), rec'). auto.
Qed.

Lemma topUsers_split (gid : string) (d : Db) :
  exists rest,
    topUsers gid d ++ rest ≡ₚ guildRows gid d /\
    StronglySorted outranks (topUsers gid d ++ rest).
Proof.
  exists (drop 10 (merge_sort outranks (guildRows gid d))).
  unfold topUsers. rewrite take_drop. split.
  - apply merge_sort_Permutation.
  - apply StronglySorted_merge_sort; apply _.
Qed.

(** The ranking behind [/leaderboard].  The rows are at most ten, all of
    them rows of the guild asked for with the xp and level stored, no
    member twice, ordered by level and then xp, both descending; they are
    all the guild's rows when there are at most ten, and any member of the
    guild who is left out is ranked no higher than every member listed. *)
Theorem topUsers_ranking (gid : string) (d : Db) :
  let rows := topUsers gid d in
  length rows = Nat.min 10 (length (guildRows gid d)) /\
  StronglySorted outranks rows /\
  NoDup (map row_user rows) /\
  (forall r, r ∈ rows ->
     exists rec, users d !! (gid, row_user r) = Some rec /\
                 row_xp r = xp rec /\ row_level r = level rec) /\
  (forall u rec, users d !! (gid, u) = Some rec ->
     u ∈ map row_user rows \/
     ((10 <= length rows)%nat /\
      forall r, r ∈ rows ->
        outranks r {| row_user := u; row_xp := xp rec; row_level := level rec |})).
Proof.
  intros rows. destruct (topUsers_split gid d) as (rest & Hperm & Hsorted).
  fold rows in Hperm, Hsorted.
  assert (Hlen : length rows = Nat.min 10 (length (guildRows gid d))).
  { unfold rows, topUsers. rewrite length_take.
    rewrite (Permutation_length (merge_sort_Permutation outranks (guildRows gid d))).
    reflexivity. }
  split; [exact Hlen |].
  split; [apply (StronglySorted_app_1_l _ _ _ Hsorted) |].
  split.
  { pose proof (NoDup_guildRows gid d) as Hnd.
    rewrite <- Hperm, fmap_app in Hnd. apply NoDup_app in Hnd. tauto. }
  split.
  { intros r Hr. apply elem_of_guildRows. rewrite <- Hperm. apply elem_of_app. auto. }
  intros u rec Hrec.
  set (me := {| row_user := u; row_xp := xp rec; row_level := level rec |}).
  assert (Hme : me ∈ rows ++ rest).
  { rewrite Hperm. apply elem_of_guildRows. exists rec. auto. }
  apply elem_of_app in Hme as [Hin | Hin].
  - left. apply list_elem_of_fmap. exists me. auto.
  - right. split.
    + destruct (le_lt_dec 10 (length rows)) as [Hle | Hlt]; [exact Hle |].
      exfalso. assert (Hall : length (rows ++ rest) = length (guildRows gid d))
        by (apply Permutation_length; exact Hperm).
      rewrite length_app in Hall.
      destruct rest; [apply elem_of_nil in Hin; exact Hin | simpl in Hall; lia].
    + intros r Hr. apply (StronglySorted_app_1_elem_of _ _ _ _ _ Hsorted Hr Hin).
Qed.

Lemma topUsers_nil_iff (gid : string) (d : Db) :
  length (topUsers gid d) = 0%nat <-> forall u, users d !! (gid, u) = None.
Proof.
  unfold topUsers. rewrite length_take.
  rewrite (Permutation_length (merge_sort_Permutation outranks (guildRows gid d))).
  split.
  - intros Hlen u. destruct (users d !! (gid, u)) as [rec |] eqn:Hrec; [| reflexivity].
    assert (Hin : {| row_user := u; row_xp := xp rec; row_level := level rec |}
                  ∈ guildRows gid d) by (apply elem_of_guildRows; exists rec; auto).
    destruct (guildRows gid d); [apply elem_of_nil in Hin; contradiction | simpl in Hlen; lia].
  - intros Hnone. destruct (guildRows gid d) as [| r rest] eqn:Hrows; [reflexivity |].
    assert (Hin : r ∈ guildRows gid d) by (rewrite Hrows; apply elem_of_cons; auto).
    apply elem_of_guildRows in Hin as (rec & Hrec & _).
    rewrite Hnone in Hrec. discriminate Hrec.
Qed.

(** The reply of [/leaderboard].  It is the "no data yet" notice exactly
    when no member of the guild has a record.  Otherwise it has one line
    per ranked row, in ranking order, numbered from 1, with the level and
    xp of the row, and with the member's id in place of the name whenever
    the lookup of the user fails or gives an empty name. *)
Theorem leaderboard_reply (usernames : string -> option string) (gid : string) (d : Db) :
  (handleLeaderboard usernames gid d = NoDataYet <->
   forall u, users d !! (gid, u) = None) /\
  forall lines,
    handleLeaderboard usernames gid d = Board lines ->
    map place lines = seq 1 (length (topUsers gid d)) /\
    map (fun l => (shown_level l, shown_xp l)) lines
      = map (fun r => (row_level r, row_xp r)) (topUsers gid d) /\
    forall i line r,
      lines !! i = Some line -> topUsers gid d !! i = Some r ->
      shown_name line =
        match usernames (row_user r) with
        | Some name => if String.eqb name "" then row_user r else name
        | None => row_user r
        end.
Proof.
  unfold handleLeaderboard. split.
  - rewrite <- topUsers_nil_iff.
    case_bool_decide as Hzero; split; try discriminate; try reflexivity; tauto.
  - intros lines. case_bool_decide as Hzero; [discriminate |].
    intros Hb. injection Hb as <-.
    generalize (topUsers gid d) as rows. intros rows.
    split; [| split].
    + assert (Hgen : forall (f : nat -> nat) start,
                (forall i, f i = (start + i)%nat) ->
                map place (imap (fun i r => {| place := f i;
                                               shown_name := Js.or_default (usernames (row_user r))
                                                                           (row_user r);
                                               shown_level := row_level r;
                                               shown_xp := row_xp r |}) rows)
                = seq start (length rows)).
      { induction rows as [| r rows IH]; intros f start Hf; simpl; [reflexivity |].
        rewrite Hf, Nat.add_0_r. f_equal.
        apply (IH (fun i => f (S i)) (S start)). intros i. unfold compose. rewrite Hf. lia. }
      apply (Hgen S 1%nat). intros i. reflexivity.
    + assert (Hgen : forall (f : nat -> nat),
                map (fun l => (shown_level l, shown_xp l))
                    (imap (fun i r => {| place := f i;
                                         shown_name := Js.or_default (usernames (row_user r))
                                                                     (row_user r);
                                         shown_level := row_level r;
                                         shown_xp := row_xp r |}) rows)
                = map (fun r => (row_level r, row_xp r)) rows).
      { induction rows as [| r rows IH]; intros f; simpl; [reflexivity |].
        f_equal. apply (IH (fun i => f (S i))). }
      apply (Hgen S).
    + intros i line r Hline Hr. rewrite list_lookup_imap, Hr in Hline. simpl in Hline.
      injection Hline as <-. simpl. unfold Js.or_default.
      destruct (usernames (row_user r)); reflexivity.
Qed.

(** ** The welcome text *)

(** [GetSubstitution] for a search string (no captures): in the
    replacement, [$$] gives a dollar sign, [$&] the matched text, [$`] the
    text before the match and [$'] the text after it; every other
    character, a lone dollar sign included, stands for itself. *)
Fixpoint expand (replacement matched before after : string) : string :=
  match replacement with
  | EmptyString => EmptyString
  | String c rest =>
      match rest with
      | String c' rest' =>
          if Ascii.eqb c "$" && Ascii.eqb c' "$"
          then String "$" (expand rest' matched before after)
          else if Ascii.eqb c "$" && Ascii.eqb c' "&"
          then matched +:+ expand rest' matched before after
          else if Ascii.eqb c "$" && Ascii.eqb c' "`"
          then before +:+ expand rest' matched before after
          else if Ascii.eqb c "$" && Ascii.eqb c' "'"
          then after +:+ expand rest' matched before after
          else String c (expand rest matched before after)
      | EmptyString => String c EmptyString
      end
  end.

(** [s.slice(n)] *)
Fixpoint string_drop (n : nat) (s : string) : string :=
  match n, s with
  | O, _ => s
  | S k, String _ s' => string_drop k s'
  | S _, EmptyString => EmptyString
  end.

(** The scan of [str.replaceAll(search, replacement)] for a non-empty
    search string, left to right: [before] is the part of the whole string
    already passed, [skip] the number of characters of the current match
    still to pass. *)
Fixpoint replaceAll_from (search replacement : string) (skip : nat) (before s : string)
    : string :=
  match s with
  | EmptyString => EmptyString
  | String c s' =>
      match skip with
      | S k => replaceAll_from search replacement k (before +:+ String c EmptyString) s'
      | O =>
          if String.prefix search s
          then expand replacement search before (string_drop (String.length search) s)
               +:+ replaceAll_from search replacement (String.length search - 1)
                                   (before +:+ String c EmptyString) s'
          else String c (replaceAll_from search replacement 0
                                         (before +:+ String c EmptyString) s')
      end
  end.

Definition replaceAll (s search replacement : string) : string :=
  replaceAll_from search replacement 0 EmptyString s.

(** [msgT.replaceAll('{user}', `<@${member.id}>`)
         .replaceAll('{server}', member.guild.name)]: the string that
    [WelcomeText msgT member_id guild_name] stands for. *)
Definition welcomeText (msgT member_id guild_name : string) : string :=
  replaceAll (replaceAll msgT "{user}" ("<@" +:+ member_id +:+ ">")) "{server}" guild_name.

Example welcomeText_default :
  welcomeText "Welcome {user} to {server}!" "42" "Town" = "Welcome <@42> to Town!".
Proof. reflexivity. Qed.

(** Does character [c] occur in [s]? *)
Fixpoint occurs (c : ascii) (s : string) : bool :=
  match s with
  | EmptyString => false
  | String c' s' => Ascii.eqb c c' || occurs c s'
  end.

Lemma app_cons (c : ascii) (s t : string) : String c s +:+ t = String c (s +:+ t).
Proof. reflexivity. Qed.

Lemma app_nil_l_string (t : string) : EmptyString +:+ t = t.
Proof. reflexivity. Qed.

Lemma app_nil_r_string (t : string) : t +:+ EmptyString = t.
Proof. induction t as [| c t IH]; [reflexivity |]. rewrite app_cons, IH. reflexivity. Qed.

Lemma app_assoc_string (a b c : string) : (a +:+ b) +:+ c = a +:+ (b +:+ c).
Proof. induction a as [| x a IH]; [reflexivity |]. rewrite !app_cons, IH. reflexivity. Qed.

Lemma occurs_app (c : ascii) (a b : string) :
  occurs c (a +:+ b) = occurs c a || occurs c b.
Proof.
  induction a as [| x a IH]; [reflexivity |].
  rewrite app_cons. simpl. rewrite IH. apply orb_assoc.
Qed.

Lemma prefix_head (p c : ascii) (pat s : string) :
  String.prefix (String p pat) (String c s) = true -> p = c.
Proof. simpl. destruct (Ascii.ascii_dec p c); [auto | discriminate]. Qed.

Lemma string_drop_app (x s : string) : string_drop (String.length x) (x +:+ s) = s.
Proof. induction x as [| c x IH]; [destruct s; reflexivity |]. rewrite app_cons. exact IH. Qed.

(** A replacement without a dollar sign is inserted as it is. *)
Lemma expand_plain (replacement matched before after : string) :
  occurs "$" replacement = false ->
  expand replacement matched before after = replacement.
Proof.
  induction replacement as [| c rest IH]; [reflexivity |].
  cbn [occurs]. intros Hocc. apply orb_false_elim in Hocc as [Hc Hrest].
  rewrite Ascii.eqb_sym in Hc.
  cbn [expand]. destruct rest as [| c' rest']; [reflexivity |].
  rewrite Hc. cbn [andb]. f_equal. apply IH. exact Hrest.
Qed.

(** Text in which the first character of the search string does not occur
    is passed over unchanged. *)
Lemma replaceAll_from_plain (p : ascii) (pat replacement a : string) :
  occurs p a = false ->
  forall before s,
    replaceAll_from (String p pat) replacement 0 before (a +:+ s) =
    a +:+ replaceAll_from (String p pat) replacement 0 (before +:+ a) s.
Proof.
  induction a as [| c a IH]; intros Hocc before s.
  - rewrite app_nil_r_string. reflexivity.
  - cbn [occurs] in Hocc. apply orb_false_elim in Hocc as [Hc Ha].
    rewrite app_cons. cbn [replaceAll_from].
    destruct (String.prefix (String p pat) (String c (a +:+ s))) eqn:Hpre.
    + apply prefix_head in Hpre. subst c. rewrite Ascii.eqb_refl in Hc. discriminate Hc.
    + f_equal. rewrite (IH Ha). f_equal. f_equal.
      rewrite app_assoc_string. reflexivity.
Qed.

Lemma replaceAll_from_skip (search replacement x : string) :
  forall before s,
    replaceAll_from search replacement (String.length x) before (x +:+ s) =
    replaceAll_from search replacement 0 (before +:+ x) s.
Proof.
  induction x as [| c x IH]; intros before s.
  - rewrite app_nil_r_string. reflexivity.
  - rewrite app_cons. cbn [String.length replaceAll_from]. rewrite IH.
    rewrite app_assoc_string. reflexivity.
Qed.

(** At an occurrence of the search string the expanded replacement is
    inserted and the scan goes on after the occurrence. *)
Lemma replaceAll_from_match (p : ascii) (pat replacement : string) :
  forall before s,
    replaceAll_from (String p pat) replacement 0 before (String p pat +:+ s) =
    expand replacement (String p pat) before s
    +:+ replaceAll_from (String p pat) replacement 0 (before +:+ String p pat) s.
Proof.
  intros before s.
  pose proof (prefix_append (String p pat) s) as Hpre.
  pose proof (string_drop_app (String p pat) s) as Hdrop.
  rewrite app_cons in *. cbn [replaceAll_from]. rewrite Hpre, Hdrop. f_equal.
  cbn [String.length]. rewrite Nat.sub_succ, Nat.sub_0_r, replaceAll_from_skip.
  rewrite app_assoc_string. reflexivity.
Qed.

Lemma replaceAll_from_end (p : ascii) (pat replacement a before : string) :
  occurs p a = false ->
  replaceAll_from (String p pat) replacement 0 before a = a.
Proof.
  intros Hocc.
  rewrite <- (app_nil_r_string a) at 1.
  rewrite (replaceAll_from_plain p pat replacement a Hocc).
  cbn [replaceAll_from]. apply app_nil_r_string.
Qed.

(** The welcome text for a template with the two placeholders, [{user}]
    before [{server}], and no other brace: the member's mention and the
    guild's name take the places of the placeholders and the rest of the
    template is kept, provided the member id holds no brace and no dollar
    sign (it is a snowflake) and the guild's name holds no dollar sign.  A
    template without a brace is sent as it is. *)
Theorem welcome_text_substitutes (a b c member_id guild_name : string) :
  occurs "{" a = false -> occurs "{" b = false -> occurs "{" c = false ->
  occurs "{" member_id = false -> occurs "$" member_id = false ->
  occurs "$" guild_name = false ->
  welcomeText (a +:+ "{user}" +:+ b +:+ "{server}" +:+ c) member_id guild_name
    = a +:+ "<@" +:+ member_id +:+ ">" +:+ b +:+ guild_name +:+ c /\
  welcomeText a member_id guild_name = a.
Proof.
  intros Ha Hb Hc Hid Hid' Hname.
  set (mention := "<@" +:+ member_id +:+ ">").
  assert (Hm_brace : occurs "{" mention = false).
  { unfold mention. rewrite !occurs_app, Hid. reflexivity. }
  assert (Hm_dollar : occurs "$" mention = false).
  { unfold mention. rewrite !occurs_app, Hid'. reflexivity. }
  assert (Htail : occurs "{" ("server}" +:+ c) = false).
  { rewrite occurs_app, Hc. reflexivity. }
  unfold welcomeText, replaceAll. fold mention. split.
  - assert (Hfirst :
      replaceAll_from "{user}" mention 0 EmptyString
                      (a +:+ "{user}" +:+ b +:+ "{server}" +:+ c)
      = a +:+ mention +:+ b +:+ "{server}" +:+ c).
    { rewrite (replaceAll_from_plain _ _ _ a Ha), replaceAll_from_match.
      rewrite (expand_plain _ _ _ _ Hm_dollar).
      rewrite (replaceAll_from_plain _ _ _ b Hb).
      change ("{server}" +:+ c) with (String "{" ("server}" +:+ c)).
      cbn [replaceAll_from].
      change (String.prefix "{user}" (String "{" ("server}" +:+ c))) with false.
      cbn iota.
      rewrite (replaceAll_from_end _ _ _ _ _ Htail). reflexivity. }
    rewrite Hfirst.
    rewrite (replaceAll_from_plain _ _ _ a Ha).
    rewrite (replaceAll_from_plain _ _ _ mention Hm_brace).
    rewrite (replaceAll_from_plain _ _ _ b Hb), replaceAll_from_match.
    rewrite (expand_plain _ _ _ _ Hname).
    rewrite (replaceAll_from_end _ _ _ _ _ Hc).
    unfold mention. rewrite !app_assoc_string. reflexivity.
  - rewrite (replaceAll_from_end _ _ _ _ _ Ha). apply (replaceAll_from_end _ _ _ _ _ Ha).
Qed.

Lemma welcome_text_substitutes_witness :
  welcomeText ("Welcome " +:+ "{user}" +:+ " to " +:+ "{server}" +:+ "!") "42" "Town"
    = "Welcome " +:+ "<@" +:+ "42" +:+ ">" +:+ " to " +:+ "Town" +:+ "!".
Proof.
  apply (welcome_text_substitutes "Welcome " " to " "!" "42" "Town"); reflexivity.
Defined.

Lemma expand_app_plain (x r matched before after : string) :
  occurs "$" x = false ->
  expand (x +:+ r) matched before after = x +:+ expand r matched before after.
Proof.
  induction x as [| ch x IH]; [reflexivity |].
  cbn [occurs]. intros Hocc. apply orb_false_elim in Hocc as [Hch Hx].
  rewrite Ascii.eqb_sym in Hch. rewrite !app_cons, <- (IH Hx). cbn [expand].
  destruct (x +:+ r) as [| c' rest']; [reflexivity |].
  rewrite Hch. reflexivity.
Qed.

(** Dollar signs in the guild's name.  The name is the replacement string
    of the second [replaceAll], so its dollar patterns are expanded: in a
    template with the one placeholder [{server}], a name containing [$$]
    is shown with a single dollar sign, [$&] is shown as the placeholder
    itself, and [$`] and [$'] are shown as the template text before and
    after the placeholder. *)
Theorem welcome_text_dollar_patterns (a c member_id x y : string) :
  occurs "{" a = false -> occurs "{" c = false ->
  occurs "$" x = false -> occurs "$" y = false ->
  let template := a +:+ "{server}" +:+ c in
  welcomeText template member_id (x +:+ "$$" +:+ y) = a +:+ x +:+ "$" +:+ y +:+ c /\
  welcomeText template member_id (x +:+ "$&" +:+ y) = a +:+ x +:+ "{server}" +:+ y +:+ c /\
  welcomeText template member_id (x +:+ "$`" +:+ y) = a +:+ x +:+ a +:+ y +:+ c /\
  welcomeText template member_id (x +:+ "$'" +:+ y) = a +:+ x +:+ c +:+ y +:+ c.
Proof.
  intros Ha Hc Hx Hy template.
  assert (Htail : occurs "{" ("server}" +:+ c) = false).
  { rewrite occurs_app, Hc. reflexivity. }
  assert (Hfirst : forall mention,
            replaceAll_from "{user}" mention 0 EmptyString template = template).
  { intros mention. unfold template.
    rewrite (replaceAll_from_plain _ _ _ a Ha).
    change ("{server}" +:+ c) with (String "{" ("server}" +:+ c)).
    cbn [replaceAll_from].
    change (String.prefix "{user}" (String "{" ("server}" +:+ c))) with false.
    cbn iota. rewrite (replaceAll_from_end _ _ _ _ _ Htail). reflexivity. }
  assert (Hsecond : forall name,
            welcomeText template member_id name
            = a +:+ expand name "{server}" a c +:+ c).
  { intros name. unfold welcomeText, replaceAll. rewrite Hfirst. unfold template.
    rewrite (replaceAll_from_plain _ _ _ a Ha), replaceAll_from_match.
    rewrite (replaceAll_from_end _ _ _ _ _ Hc). reflexivity. }
  repeat rewrite Hsecond.
  rewrite (expand_app_plain x ("$$" +:+ y)), (expand_app_plain x ("$&" +:+ y)),
    (expand_app_plain x ("$`" +:+ y)), (expand_app_plain x ("$'" +:+ y)) by exact Hx.
  change ("$$" +:+ y) with (String "$" (String "$" y)).
  change ("$&" +:+ y) with (String "$" (String "&" y)).
  change ("$`" +:+ y) with (String "$" (String "`" y)).
  change ("$'" +:+ y) with (String "$" (String "'" y)).
  cbn [expand Ascii.eqb Bool.eqb andb].
  repeat (rewrite (expand_plain y) by exact Hy).
  rewrite !app_assoc_string. repeat split; reflexivity.
Qed.

Lemma welcome_text_dollar_patterns_witness :
  welcomeText ("Hi, this is " +:+ "{server}" +:+ "!") "42" ("A" +:+ "$$" +:+ "B")
    = "Hi, this is " +:+ "A" +:+ "$" +:+ "B" +:+ "!".
Proof.
  apply (welcome_text_dollar_patterns "Hi, this is " "!" "42" "A" "B"); reflexivity.
Defined.

(** ** Setting up, then a member joins *)

(** After [/setautorole] with an editable role of the cache and
    [/setwelcome] with a text channel of the cache and a non-empty text,
    in either order and whatever the store held before, the join handler
    asks for that role for the joining member and sends the welcome built
    from that text to that channel, in this order. *)
Theorem join_after_setup (rejects : Action -> bool) (g : Guild) (who : Member)
    (role_id channel_id message : string) (w : World) :
  role_id <> "" -> roles_cache g !! role_id = Some true ->
  channel_id <> "" -> channels_cache g !! channel_id = Some true ->
  message <> "" ->
  forall cmds,
    cmds = [SetAutorole role_id; SetWelcome channel_id message] \/
    cmds = [SetWelcome channel_id message; SetAutorole role_id] ->
    let w1 := runCommands rejects (guild_id g) cmds w in
    let uid := user_id (user who) in
    exists log,
      issued w1 (snd (guildMemberAdd rejects g who w1)) =
        [Ran (GetCfg (guild_id g));
         Called (RolesAdd (guild_id g) uid [role_id]);
         Called (ChannelSend channel_id (WelcomeText message uid (guild_name g)))] ++ log.
Proof.
  intros Hr Hrc Hc Hcc Hm cmds Hcmds w1 uid.
  assert (Hcfg : exists c, Sql.getCfg (guild_id g) (db w1) = Some c /\
                           autorole_id c = Some role_id /\
                           welcome_channel_id c = Some channel_id /\
                           welcome_message c = Some message).
  { unfold w1, runCommands. destruct Hcmds as [-> | ->]; cbn [fold_left];
      rewrite !handleCommand_db, !getCfg_upsertCfg; eexists; (split; [reflexivity |]);
      simpl; rewrite ?or_null_nonempty by assumption; auto. }
  destruct Hcfg as (c & Hget & Hauto & Hwc & Hwm).
  rewrite trace_guildMemberAdd. rewrite Hget. simpl mbind. rewrite Hauto, Hwc, Hwm.
  assert (Hrole : find_role g (Some role_id) = Some (role_id, true))
    by (apply find_role_spec; auto).
  assert (Hchan : find_channel g (Js.or_else (Some channel_id) (systemChannelId g))
                  = Some (channel_id, true))
    by (apply welcome_target_spec; auto).
  assert (Htext : Js.or_default (Some message) "Welcome {user} to {server}!" = message).
  { unfold Js.or_default. destruct (String.eqb_spec message ""); [contradiction | reflexivity]. }
  rewrite Hrole, Hchan, Htext. eexists. reflexivity.
Qed.

Lemma join_after_setup_witness :
  let w1 := runCommands Sample.accept_all "g"
              [SetAutorole "A"; SetWelcome "general" "Hi {user}"] Sample.blank in
  exists log,
    issued w1 (snd (guildMemberAdd Sample.accept_all Sample.town (Sample.alice_joined 0) w1)) =
      [Ran (GetCfg "g");
       Called (RolesAdd "g" "u" ["A"]);
       Called (ChannelSend "general" (WelcomeText "Hi {user}" "u" "Town"))] ++ log.
Proof.
  apply (join_after_setup Sample.accept_all Sample.town (Sample.alice_joined 0)
           "A" "general" "Hi {user}" Sample.blank);
    try discriminate; try reflexivity.
  left. reflexivity.
Defined.
